(** * G2 geometry elements: style resolution, animation-config resolution,
      shape-tree reconciliation and the Element state engine.

    Shallow embedding of
      - src/geometry/shape/util/get-style.ts   (getStyle)
      - src/geometry/element/index.ts          (class Element)
    JavaScript objects are finite maps from property names to values,
    mutation is explicit state passing over one [Element] record, a thrown
    [TypeError] is an outcome that keeps the state reached so far, and every
    call into a collaborator (animation driver, event bus, shape factory,
    state-style lookup) is recorded in an effect trace. Numbers in models
    and attributes are integers; the coordinates of canvas boxes are exact
    integers in [BBox] and IEEE 754 doubles in [BoxObject], where [getBBox]
    is modelled with the box object it writes to. *)

From Stdlib Require Import ZArith DecimalString.
From Stdlib Require PrimFloat FloatOps FloatAxioms SpecFloat.
From stdpp Require Import gmap strings list fin_maps.

(** ** JavaScript values and the @antv/util helpers the sources call *)

Module JS.

(** Values found in models, themes, styles and configurations. Functions
    are named by a number and run by the environment. *)
#[warning="-register-all"]
Inductive Val :=
| VUndef
| VNull
| VBool (b : bool)
| VNum (n : Z)
| VStr (s : string)
| VObj (o : gmap string Val)
| VFun (f : nat).

(** A plain object: its own properties. *)
Abbreviation Obj := (gmap string Val).

(** [if (v)]: undefined, null, false, 0 and '' are falsy. *)
Definition truthy (v : Val) : bool :=
  match v with
  | VUndef | VNull => false
  | VBool b => b
  | VNum n => negb (n =? 0)%Z
  | VStr s => negb (String.eqb s "")
  | VObj _ | VFun _ => true
  end.

(** [isNil]: null or undefined. *)
Definition isNil (v : Val) : bool :=
  match v with
  | VUndef | VNull => true
  | _ => false
  end.

(** [v === null]. *)
Definition isNull (v : Val) : bool :=
  match v with
  | VNull => true
  | _ => false
  end.

(** An optional object as a value. *)
Definition ofObj (obj : option Obj) : Val :=
  match obj with
  | Some o => VObj o
  | None => VUndef
  end.

(** The enumerable own properties of a value ([for (k in v)]). *)
Definition asObj (v : Val) : Obj :=
  match v with
  | VObj o => o
  | _ => ∅
  end.

(** [v[key]] on a value that is not null or undefined, among the own
    properties of a plain object. The prototype chain and the properties of
    primitives and functions are not modelled: a key such as [constructor]
    or the [length] of a string is outside this definition, and statements
    that read a key chosen by the caller say so ([Plain.ownKey]). *)
Definition prop (v : Val) (key : string) : Val :=
  match v with
  | VObj o => default VUndef (o !! key)
  | _ => VUndef
  end.

(** The separator character of [key.split('.')]. *)
Definition dot : Ascii.ascii :=
  match "." with
  | String c _ => c
  | EmptyString => Ascii.zero
  end.

(** [key.split('.')]. *)
Fixpoint splitDot (key : string) : list string :=
  match key with
  | EmptyString => [EmptyString]
  | String c rest =>
      if Ascii.eqb c dot then EmptyString :: splitDot rest
      else match splitDot rest with
           | [] => [String c EmptyString]
           | w :: ws => String c w :: ws
           end
  end.

(** [get(obj, keyArr, defaultValue)]:
    [while (obj && p < keyArr.length) obj = obj[keyArr[p++]];
     return obj === undefined || p < keyArr.length ? defaultValue : obj]. *)
Fixpoint getPath (obj : Val) (keyArr : list string) (defaultValue : Val) : Val :=
  match keyArr with
  | [] => match obj with VUndef => defaultValue | _ => obj end
  | k :: rest =>
      if truthy obj then getPath (prop obj k) rest defaultValue else defaultValue
  end.

(** [get(obj, key)] with a string key, which is split at dots. *)
Definition get (obj : Val) (key : string) : Val :=
  getPath obj (splitDot key) VUndef.

(** Object spread [{ ...into, ...src }]: the own properties of [src]
    overwrite those of [into]; spreading undefined adds nothing. *)
Definition spread (src : option Obj) (into : Obj) : Obj :=
  match src with
  | Some o => o ∪ into
  | None => into
  end.

(** [isEmpty] on an optional plain object. *)
Definition isEmpty (obj : option Obj) : bool :=
  match obj with
  | Some o => Nat.eqb (size o) 0
  | None => true
  end.

(** Own-property lookup on an optional object. *)
Definition own (obj : option Obj) (key : string) : option Val :=
  match obj with
  | Some o => o !! key
  | None => None
  end.

(** [_deepMix(dist, src, level)]: a plain-object property of [src] is mixed
    into the plain object already under that key of [dist] (or into a new
    one) while [level < maxLevel], any other value except undefined
    replaces the property. [fuel] is [maxLevel - level]. *)
Fixpoint deepMixLevel (fuel : nat) (dist src : Obj) : Obj :=
  merge (fun d s =>
    match s with
    | None => d
    | Some (VObj so) =>
        match fuel with
        | S f => Some (VObj (deepMixLevel f (match d with Some (VObj o) => o | _ => ∅ end) so))
        | O => s
        end
    | Some VUndef => d
    | Some _ => s
    end) dist src.

Definition MAX_MIX_LEVEL : nat := 5.

(** [deepMix(rst, a, b)]. *)
Definition deepMix (rst a b : Obj) : Obj :=
  deepMixLevel MAX_MIX_LEVEL (deepMixLevel MAX_MIX_LEVEL rst a) b.

(** [String(i)] for an array index used as a property key. *)
Definition indexKey (i : nat) : string :=
  NilEmpty.string_of_uint (Nat.to_uint i).

End JS.
Import JS.

(** ** The model handed to shape builders (interface ShapeInfo) *)

Module Model.

(** The [shape] field: absent, one shape-type name, or an ordered list of
    candidate names. *)
Inductive ShapeField :=
| ShapeAbsent
| ShapeName (s : string)
| ShapeNames (l : list string).

Record ShapeInfo := mkShapeInfo {
  style : option Obj;
  defaultStyle : option Obj;
  color : Val;
  size : Val;
  shape : ShapeField;
  data : Val;
}.

End Model.

(** ** get-style.ts *)

Module GetStyle.
Import Model.

(** [attrs = { ...defaultStyle, ...style }]. *)
Definition mergedStyle (cfg : ShapeInfo) : Obj :=
  spread (style cfg) (spread (defaultStyle cfg) ∅).

(** The [if (color)] block. *)
Definition applyColor (cfg : ShapeInfo) (isStroke isFill : bool) (attrs : Obj) : Obj :=
  if truthy (color cfg) then
    let attrs :=
      if isStroke then
        if negb (truthy (get (ofObj (style cfg)) "stroke"))
        then <["stroke" := color cfg]> attrs
        else attrs
      else attrs in
    if isFill then
      if negb (truthy (get (ofObj (style cfg)) "fill"))
      then <["fill" := color cfg]> attrs
      else attrs
    else attrs
  else attrs.

(** The [if (sizeName && isNil(get(style, sizeName)) && !isNil(size))] block. *)
Definition applySize (cfg : ShapeInfo) (sizeName : string) (attrs : Obj) : Obj :=
  if negb (String.eqb sizeName "")
     && isNil (get (ofObj (style cfg)) sizeName)
     && negb (isNil (size cfg))
  then <[sizeName := size cfg]> attrs
  else attrs.

Definition getStyle (cfg : ShapeInfo) (isStroke isFill : bool) (sizeName : string) : Obj :=
  applySize cfg sizeName (applyColor cfg isStroke isFill (mergedStyle cfg)).

End GetStyle.

(** ** Animation-config resolution (the body of Element.getAnimateCfg) *)

Module Animate.

(** What the user stored under one transition kind:
    [AnimateCfg | false | null]; absent is a missing key. *)
Inductive KindOption :=
| KFalse
| KNull
| KCfg (cfg : Obj).

(** [geometry.animateOption : AnimateOption | boolean]. *)
Inductive AnimateOption :=
| AnimBool (b : bool)
| AnimObj (o : gmap string KindOption).

(** [if (animate)]. *)
Definition switchedOn (animate : AnimateOption) : bool :=
  match animate with
  | AnimBool b => b
  | AnimObj _ => true
  end.

(** [animate === true]. *)
Definition isTrue (animate : AnimateOption) : bool :=
  match animate with
  | AnimBool b => b
  | AnimObj _ => false
  end.

(** [animate[animateType]]; indexing a boolean yields undefined. *)
Definition entry (animate : AnimateOption) (animateType : string) : option KindOption :=
  match animate with
  | AnimBool _ => None
  | AnimObj o => o !! animateType
  end.

Definition isFalseEntry (e : option KindOption) : bool :=
  match e with Some KFalse => true | _ => false end.

Definition isNullEntry (e : option KindOption) : bool :=
  match e with Some KNull => true | _ => false end.

(** What [...animate[animateType]] spreads. *)
Definition entryCfg (e : option KindOption) : option Obj :=
  match e with Some (KCfg c) => Some c | _ => None end.

(** [defaultCfg] is the answer of [getDefaultAnimateCfg(geometryType,
    coordinate, animateType)], a function of the animate module that the
    element only calls. *)
Definition resolve (animate : AnimateOption) (defaultCfg : option Obj)
    (animateType : string) : option Obj :=
  if negb (switchedOn animate)
     || (isTrue animate && isEmpty defaultCfg)
     || isFalseEntry (entry animate animateType)
     || isNullEntry (entry animate animateType)
  then None
  else Some (spread (entryCfg (entry animate animateType)) (spread defaultCfg ∅)).

End Animate.

(** ** The scene-graph layer, as far as the element uses it *)

Module BBox.

(** A canvas box with exact coordinates; the element only takes minima,
    maxima and differences of them. [BoxObject.Box] has the coordinates in
    any arithmetic, doubles among them. *)
Record t := mk {
  x : Z;
  y : Z;
  minX : Z;
  minY : Z;
  maxX : Z;
  maxY : Z;
  width : Z;
  height : Z;
}.

End BBox.

Module Scene.

(** An attribute delta: [Some v] sets an attribute, [None] removes it. *)
Abbreviation Delta := (gmap string (option Val)).

(** What every node (shape or group) carries: its identity, its declared
    name, its attributes, its visibility and the key-value tags the
    element writes ([origin], [element], [data], [inheritNames]). *)
Record Node := mkNode {
  nid : nat;
  name : option string;
  attrs : Obj;
  visible : bool;
  origin : option Model.ShapeInfo;
  element : bool;
  datum : Val;
  inheritNames : list string;
}.

#[warning="-register-all"]
Inductive Shape :=
| Leaf (n : Node)
| Group (n : Node) (children : list Shape).

Definition node (s : Shape) : Node :=
  match s with
  | Leaf n => n
  | Group n _ => n
  end.

Definition withNode (f : Node -> Node) (s : Shape) : Shape :=
  match s with
  | Leaf n => Leaf (f n)
  | Group n cs => Group (f n) cs
  end.

(** [shape.isGroup()]. *)
Definition isGroup (s : Shape) : bool :=
  match s with
  | Leaf _ => false
  | Group _ _ => true
  end.

(** [shape.get('children')]: undefined on a leaf. *)
Definition getChildren (s : Shape) : option (list Shape) :=
  match s with
  | Leaf _ => None
  | Group _ cs => Some cs
  end.

(** Writes the children array back after its members were mutated. *)
Definition setChildren (cs : option (list Shape)) (s : Shape) : Shape :=
  match s, cs with
  | Group n _, Some cs' => Group n cs'
  | _, _ => s
  end.

Definition setAttrs (a : Obj) (n : Node) : Node :=
  mkNode (nid n) (name n) a (visible n) (origin n) (element n) (datum n) (inheritNames n).

Definition setVisible (v : bool) (n : Node) : Node :=
  mkNode (nid n) (name n) (attrs n) v (origin n) (element n) (datum n) (inheritNames n).

Definition setName (s : string) (n : Node) : Node :=
  mkNode (nid n) (Some s) (attrs n) (visible n) (origin n) (element n) (datum n) (inheritNames n).

Definition setNid (i : nat) (n : Node) : Node :=
  mkNode i (name n) (attrs n) (visible n) (origin n) (element n) (datum n) (inheritNames n).

(** [set('origin', data); set('element', this)]. *)
Definition setInfo (data : Model.ShapeInfo) (n : Node) : Node :=
  mkNode (nid n) (name n) (attrs n) (visible n) (Some data) true (datum n) (inheritNames n).

(** [set('data', d); set('origin', model)]. *)
Definition setDataOrigin (d : Val) (model : Model.ShapeInfo) (n : Node) : Node :=
  mkNode (nid n) (name n) (attrs n) (visible n) (Some model) (element n) d (inheritNames n).

Definition setInheritNames (l : list string) (n : Node) : Node :=
  mkNode (nid n) (name n) (attrs n) (visible n) (origin n) (element n) (datum n) l.

(** [shape.attr(style)]: an object argument sets each of its properties;
    undefined or any other value changes nothing. *)
Definition attr (style : Val) (s : Shape) : Shape :=
  match style with
  | VObj o => withNode (fun n => setAttrs (o ∪ attrs n) n) s
  | _ => s
  end.

(** Modelled from the spec: getReplaceAttrs of util/graphics, which is not
    among the sources. The delta that turns the source leaf into the target
    leaf's attribute set: every attribute of the target, and the removal of
    every attribute present on the source but absent on the target. *)
Definition getReplaceAttrs (sourceShape targetShape : Shape) : Delta :=
  (Some <$> attrs (node targetShape)) ∪ ((fun _ => None) <$> attrs (node sourceShape)).

(** [shape.attr(delta)] with the delta of [getReplaceAttrs]. *)
Definition applyDelta (d : Delta) (a : Obj) : Obj :=
  merge (fun dv av =>
    match dv with
    | Some (Some v) => Some v
    | Some None => None
    | None => av
    end) d a.

Definition attrDelta (d : Delta) (s : Shape) : Shape :=
  withNode (fun n => setAttrs (applyDelta d (attrs n)) n) s.

(** [shape.show()] and [shape.hide()]. *)
Definition show (s : Shape) : Shape := withNode (setVisible true) s.
Definition hide (s : Shape) : Shape := withNode (setVisible false) s.

(** [children.splice(children.indexOf(el), 1)]. *)
Fixpoint removeChild (id : nat) (children : list nat) : list nat :=
  match children with
  | [] => []
  | c :: rest => if Nat.eqb c id then rest else c :: removeChild id rest
  end.

Definition isChild (id : nat) (children : list nat) : bool :=
  existsb (Nat.eqb id) children.

(** [shape.toFront()]: last in the parent's paint order; nothing happens
    to a shape without parent. *)
Definition toFront (id : nat) (children : list nat) : list nat :=
  if isChild id children then removeChild id children ++ [id] else children.

(** [shape.toBack()]: first in the parent's paint order. *)
Definition toBack (id : nat) (children : list nat) : list nat :=
  if isChild id children then id :: removeChild id children else children.

End Scene.

(** ** class Element *)

Module Element.
Import Animate.

(** The key under which a leaf's state style is looked up:
    [sourceShape.get('name') || index]. *)
Inductive Key :=
| KeyName (s : string)
| KeyIndex (i : nat).

(** The key as the property name that [get(stateCfg.style, [shapeKey])] reads. *)
Definition keyString (k : Key) : string :=
  match k with
  | KeyName s => s
  | KeyIndex i => indexKey i
  end.

(** Calls that leave the element, in program order. *)
Inductive Effect :=
| DrawShape (offscreen : bool) (shapeType : option string) (model : option Model.ShapeInfo)
| GetStateStyle (stateName : string) (shapeKey : Key)
| DoAnimate (shape : Scene.Shape) (animateCfg : Obj) (toAttrs : Scene.Delta)
    (shapeModel : option Model.ShapeInfo)
| StopAnimate (shape : Scene.Shape)
| AnimateTo (shape : Scene.Shape) (toAttrs : Scene.Delta) (duration : Z)
| Emit (event : string) (state : string) (stateStatus : bool)
| PropagationDelegate (event : string) (state : string) (stateStatus : bool)
| SuperDestroy.

(** The fields of the instance, the children of its container and of its
    off-screen group (node identities, in paint order), the next fresh
    node identity, and the trace of calls made so far. *)
Record Element := mkElement {
  visible : bool;
  model : option Model.ShapeInfo;
  data : Val;
  shapeType : option string;
  shape : option Scene.Shape;
  labelShape : option (list Scene.Shape);
  states : list string;
  offscreenGroup : option (list nat);
  container : list nat;
  nextId : nat;
  trace : list Effect;
}.

(** The collaborators fixed at construction: the shape factory (what it
    builds for a shape type and a model, or nothing), the geometry's
    options, the theme, the built-in animation defaults, the functions
    behind [VFun] values and the scene graph's bounding-box query. *)
Record Env := mkEnv {
  drawShapeOf : option string -> option Model.ShapeInfo -> option Scene.Shape;
  geometryType : string;
  animateOption : AnimateOption;
  stateOption : Val;
  theme : Val;
  getDefaultAnimateCfg : string -> option Obj;
  call : nat -> Element -> Val;
  getCanvasBBox : Scene.Shape -> BBox.t;
}.

Definition setVisible (v : bool) (e : Element) : Element :=
  mkElement v (model e) (data e) (shapeType e) (shape e) (labelShape e) (states e)
    (offscreenGroup e) (container e) (nextId e) (trace e).

Definition setModel (m : option Model.ShapeInfo) (d : Val) (t : option string)
    (e : Element) : Element :=
  mkElement (visible e) m d t (shape e) (labelShape e) (states e)
    (offscreenGroup e) (container e) (nextId e) (trace e).

Definition setShape (s : option Scene.Shape) (e : Element) : Element :=
  mkElement (visible e) (model e) (data e) (shapeType e) s (labelShape e) (states e)
    (offscreenGroup e) (container e) (nextId e) (trace e).

Definition setLabelShape (l : option (list Scene.Shape)) (e : Element) : Element :=
  mkElement (visible e) (model e) (data e) (shapeType e) (shape e) l (states e)
    (offscreenGroup e) (container e) (nextId e) (trace e).

Definition setStates (l : list string) (e : Element) : Element :=
  mkElement (visible e) (model e) (data e) (shapeType e) (shape e) (labelShape e) l
    (offscreenGroup e) (container e) (nextId e) (trace e).

Definition setOffscreenGroup (g : option (list nat)) (e : Element) : Element :=
  mkElement (visible e) (model e) (data e) (shapeType e) (shape e) (labelShape e) (states e)
    g (container e) (nextId e) (trace e).

Definition setContainer (c : list nat) (e : Element) : Element :=
  mkElement (visible e) (model e) (data e) (shapeType e) (shape e) (labelShape e) (states e)
    (offscreenGroup e) c (nextId e) (trace e).

Definition setNextId (n : nat) (e : Element) : Element :=
  mkElement (visible e) (model e) (data e) (shapeType e) (shape e) (labelShape e) (states e)
    (offscreenGroup e) (container e) n (trace e).

(** Appends calls to the trace. *)
Definition emitAll (l : list Effect) (e : Element) : Element :=
  mkElement (visible e) (model e) (data e) (shapeType e) (shape e) (labelShape e) (states e)
    (offscreenGroup e) (container e) (nextId e) (trace e ++ l).

(** How a method ends: it returns, or a [TypeError] leaves it (a property
    read or a call on undefined); both keep the mutations made so far. *)
Inductive Outcome :=
| Return (e : Element)
| TypeError (e : Element).

Definition final (o : Outcome) : Element :=
  match o with
  | Return e | TypeError e => e
  end.

Definition returned (o : Outcome) : bool :=
  match o with
  | Return _ => true
  | TypeError _ => false
  end.

Definition andThen (o : Outcome) (k : Element -> Outcome) : Outcome :=
  match o with
  | Return e => k e
  | TypeError e => TypeError e
  end.

Notation "o >>> k" := (andThen o k) (at level 60, right associativity).

(** A new element: the constructor stores its configuration and owns no
    shape yet. *)
Definition create (visible : bool) (offscreenGroup : option (list nat))
    (container : list nat) (nextId : nat) : Element :=
  mkElement visible None VUndef None None None [] offscreenGroup container nextId [].

(** [getShapeType]: [isArray(shape) ? shape[0] : shape]. *)
Definition getShapeType (model : Model.ShapeInfo) : option string :=
  match Model.shape model with
  | Model.ShapeAbsent => None
  | Model.ShapeName s => Some s
  | Model.ShapeNames l => head l
  end.

(** [getAnimateCfg(animateType)]. *)
Definition getAnimateCfg (env : Env) (animateType : string) : option Obj :=
  resolve (animateOption env) (getDefaultAnimateCfg env animateType) animateType.

(** The answer of [getStateStyle]. *)
Record StateCfg := mkStateCfg {
  animate : Val;
  style : Val;
}.

(** A property name made of an optional string ([String(undefined)]). *)
Definition nameKey (o : option string) : string := default "undefined" o.

(** [getStateStyle(stateName, shapeKey)]. *)
Definition getStateStyle (env : Env) (this : Element) (stateName : string)
    (shapeKey : Key) : StateCfg :=
  let stateOption := getPath (stateOption env) (splitDot stateName) (VObj ∅) in
  let stateCfg :=
    deepMix ∅
      (asObj (getPath (theme env) [nameKey (shapeType this); stateName] (VObj ∅)))
      (asObj stateOption) in
  let styleOf := prop (VObj stateCfg) "style" in
  let keyed := getPath styleOf [keyString shapeKey] VUndef in
  let shapeStyle := if truthy keyed then keyed else styleOf in
  let shapeStyle :=
    match shapeStyle with
    | VFun f => call env f this
    | _ => shapeStyle
    end in
  mkStateCfg (prop (VObj stateCfg) "animate") shapeStyle.

(** [setShapeInfo(shape, data)], over the whole tree. *)
Fixpoint setShapeInfo (data : Model.ShapeInfo) (s : Scene.Shape) : Scene.Shape :=
  match s with
  | Scene.Leaf n => Scene.Leaf (Scene.setInfo data n)
  | Scene.Group n children =>
      Scene.Group (Scene.setInfo data n) (map (setShapeInfo data) children)
  end.

(** [getOffscreenGroup()]: created on first use. *)
Definition getOffscreenGroup (e : Element) : Element :=
  match offscreenGroup e with
  | Some _ => e
  | None => setOffscreenGroup (Some []) e
  end.

(** [shapeFactory.drawShape(shapeType, model, container)]: the shape the
    factory builds becomes the last child of the real container
    ([offscreen = false]) or of the off-screen group. *)
Definition drawOn (env : Env) (offscreen : bool) (shapeType : option string)
    (model : option Model.ShapeInfo) (e : Element) : option Scene.Shape * Element :=
  let e := emitAll [DrawShape offscreen shapeType model] e in
  match drawShapeOf env shapeType model with
  | None => (None, e)
  | Some s =>
      let id := nextId e in
      let e := setNextId (S id) e in
      let e :=
        if offscreen
        then setOffscreenGroup (Some (default [] (offscreenGroup e) ++ [id])) e
        else setContainer (container e ++ [id]) e in
      (Some (Scene.withNode (Scene.setNid id) s), e)
  end.

(** [sourceShape.get('name') || index]. *)
Definition shapeKeyOf (n : Scene.Node) (index : nat) : Key :=
  match Scene.name n with
  | Some s => if String.eqb s "" then KeyIndex index else KeyName s
  | None => KeyIndex index
  end.

(** What one reconciliation call leaves behind: the source and target as
    mutated, the calls made, and whether it ran to its end. *)
Record SyncResult := mkSync {
  source : Scene.Shape;
  target : option Scene.Shape;
  effects : list Effect;
  completed : bool;
}.

Record ChildrenResult := mkChildren {
  sources : list Scene.Shape;
  targets : option (list Scene.Shape);
  childEffects : list Effect;
  childrenCompleted : bool;
}.

(** The leaf branch of [syncShapeStyle]. *)
Definition syncLeaf (env : Env) (this : Element) (sourceShape : Scene.Shape)
    (targetShape : option Scene.Shape) (state : string) (animateCfg : option Obj)
    (index : nat) : SyncResult :=
  let key := shapeKeyOf (Scene.node sourceShape) index in
  let cfg := getStateStyle env this state key in
  let styled := negb (String.eqb state "") in
  let lookups := if styled then [GetStateStyle state key] else [] in
  let stateAnimate := if styled then animate cfg else VUndef in
  match targetShape with
  | None => mkSync sourceShape None lookups false
  | Some t =>
      let t := if styled then Scene.attr (style cfg) t else t in
      let newAttrs := Scene.getReplaceAttrs sourceShape t in
      match animateCfg with
      | Some c =>
          mkSync sourceShape (Some t)
            (lookups ++ [DoAnimate sourceShape c newAttrs (model this)]) true
      | None =>
          if isNull stateAnimate then
            mkSync (Scene.attrDelta newAttrs sourceShape) (Some t) lookups true
          else if switchedOn (animateOption env) then
            mkSync sourceShape (Some t)
              (lookups ++ [StopAnimate sourceShape; AnimateTo sourceShape newAttrs 300]) true
          else
            mkSync (Scene.attrDelta newAttrs sourceShape) (Some t) lookups true
      end
  end.

(** The loop of the group branch,
    [for (let i = 0; i < children.length; i++)
       this.syncShapeStyle(children[i], newChildren[i], state, animateCfg, index + i)],
    over the children not yet visited; [sync child target i] is the
    recursive call for position [i]. Reading [newChildren[i]] of an
    undefined [newChildren] throws; an index past its end reads undefined. *)
Fixpoint syncChildren (sync : Scene.Shape -> option Scene.Shape -> nat -> SyncResult)
    (children : list Scene.Shape) (newChildren : option (list Scene.Shape))
    (i : nat) {struct children} : ChildrenResult :=
  match children with
  | [] => mkChildren [] newChildren [] true
  | child :: rest =>
      match newChildren with
      | None => mkChildren children None [] false
      | Some ncs =>
          let r := sync child (ncs !! i) i in
          let ncs' :=
            match target r with
            | Some t' => <[i := t']> ncs
            | None => ncs
            end in
          if completed r then
            let rs := syncChildren sync rest (Some ncs') (S i) in
            mkChildren (source r :: sources rs) (targets rs)
              (effects r ++ childEffects rs) (childrenCompleted rs)
          else mkChildren (source r :: rest) (Some ncs') (effects r) false
      end
  end.

(** [syncShapeStyle(sourceShape, targetShape, state, animateCfg, index)].
    A group reads [targetShape.get('children')] and pairs child [i] of the
    source with [newChildren[i]], passing [index + i]. [this] is the
    element as it stands when the pass begins; it is read for its shape
    type and model and handed to style callbacks. *)
Fixpoint syncShapeStyle (env : Env) (this : Element) (sourceShape : Scene.Shape)
    (targetShape : option Scene.Shape) (state : string) (animateCfg : option Obj)
    (index : nat) {struct sourceShape} : SyncResult :=
  match sourceShape with
  | Scene.Group n children =>
      match targetShape with
      | None => mkSync sourceShape None [] false
      | Some t =>
          let r :=
            syncChildren
              (fun child newChild i =>
                 syncShapeStyle env this child newChild state animateCfg (index + i))
              children (Scene.getChildren t) 0 in
          mkSync (Scene.Group n (sources r)) (Some (Scene.setChildren (targets r) t))
            (childEffects r) (childrenCompleted r)
      end
  | Scene.Leaf _ => syncLeaf env this sourceShape targetShape state animateCfg index
  end.

(** [this.getAnimateCfg(kind)] answered with a configuration starts
    [doAnimate(shape, cfg, { coordinate, toAttrs: { ...shape.attr() } })]. *)
Definition animateToOwnAttrs (env : Env) (animateType : string) (s : Scene.Shape)
    (e : Element) : option Element :=
  match getAnimateCfg env animateType with
  | Some cfg =>
      Some (emitAll [DoAnimate s cfg (Some <$> Scene.attrs (Scene.node s)) None] e)
  | None => None
  end.

(** Modelled from the spec: Base.changeVisible, which is not among the
    sources, stores the visibility flag that the constructor initialises
    and [draw] reads. *)
Definition superChangeVisible (visible : bool) (e : Element) : Element :=
  setVisible visible e.

(** [changeVisible(visible)]. *)
Definition changeVisible (visible : bool) (e : Element) : Element :=
  let e := superChangeVisible visible e in
  if visible then
    let e :=
      match shape e with
      | Some s => setShape (Some (Scene.show s)) e
      | None => e
      end in
    match labelShape e with
    | Some labels => setLabelShape (Some (map Scene.show labels)) e
    | None => e
    end
  else
    let e :=
      match shape e with
      | Some s => setShape (Some (Scene.hide s)) e
      | None => e
      end in
    match labelShape e with
    | Some labels => setLabelShape (Some (map Scene.hide labels)) e
    | None => e
    end.

(** [!shape.get('name')]. *)
Definition unnamed (n : Scene.Node) : bool :=
  match Scene.name n with
  | Some s => String.eqb s ""
  | None => true
  end.

(** The private [drawShape(model, isUpdate)]. *)
Definition drawShape (env : Env) (model : Model.ShapeInfo) (isUpdate : bool)
    (e : Element) : Element :=
  let '(built, e) := drawOn env false (shapeType e) (Some model) e in
  match built with
  | None => setShape None e
  | Some s =>
      let s := setShapeInfo model s in
      let s :=
        if unnamed (Scene.node s)
        then Scene.withNode (Scene.setName (geometryType env)) s
        else s in
      let s := Scene.withNode (Scene.setInheritNames ["element"]) s in
      let e := setShape (Some s) e in
      let animateType := if isUpdate then "enter" else "appear" in
      default e (animateToOwnAttrs env animateType s e)
  end.

(** [draw(model, isUpdate = false)]. *)
Definition draw (env : Env) (model : Model.ShapeInfo) (isUpdate : bool)
    (e : Element) : Element :=
  let e := setModel (Some model) (Model.data model) (getShapeType model) e in
  let e := drawShape env model isUpdate e in
  if visible e then e else changeVisible false e.

(** [update(model)]. *)
Definition update (env : Env) (model : Model.ShapeInfo) (e : Element) : Outcome :=
  match shape e with
  | None => Return e
  | Some shape =>
      let e := setModel (Some model) (Model.data model) (getShapeType model) e in
      let shape := setShapeInfo model shape in
      let e := setShape (Some shape) e in
      let e := getOffscreenGroup e in
      let '(newShape, e) := drawOn env true (shapeType e) (Some model) e in
      match newShape with
      | None => TypeError e
      | Some newShape =>
          let newShape := Scene.withNode (Scene.setDataOrigin (data e) model) newShape in
          let r := syncShapeStyle env e shape (Some newShape) "" (getAnimateCfg env "update") 0 in
          let e := emitAll (effects r) (setShape (Some (source r)) e) in
          if completed r then Return e else TypeError e
      end
  end.

(** [destroy()]: [shape.remove(true)] takes the shape out of its parent's
    children. *)
Definition destroy (env : Env) (e : Element) : Element :=
  let e :=
    match shape e with
    | Some s =>
        match animateToOwnAttrs env "leave" s e with
        | Some e' => e'
        | None => setContainer (Scene.removeChild (Scene.nid (Scene.node s)) (container e)) e
        end
    | None => e
    end in
  emitAll [SuperDestroy] (setStates [] e).

(** [states.indexOf(stateName)]; [None] stands for -1. *)
Fixpoint indexOf (stateName : string) (states : list string) : option nat :=
  match states with
  | [] => None
  | s :: rest =>
      if String.eqb s stateName then Some 0 else S <$> indexOf stateName rest
  end.

(** [stateName === 'active' || stateName === 'selected']. *)
Definition raises (stateName : string) : bool :=
  String.eqb stateName "active" || String.eqb stateName "selected".

(** [shape.toFront()] and [shape.toBack()] on the element's shape. *)
Definition restack (move : nat -> list nat -> list nat) (e : Element) : Outcome :=
  match shape e with
  | None => TypeError e
  | Some s => Return (setContainer (move (Scene.nid (Scene.node s)) (container e)) e)
  end.

(** One [this.syncShapeStyle(shape, offscreenShape, state, null)]. *)
Definition syncOnce (env : Env) (state : string) (e : Element)
    (offscreenShape : option Scene.Shape) : Element * option Scene.Shape * bool :=
  match shape e with
  | None => (e, offscreenShape, false)
  | Some s =>
      let r := syncShapeStyle env e s offscreenShape state None 0 in
      (emitAll (effects r) (setShape (Some (source r)) e), target r, completed r)
  end.

(** [states.forEach((state) => this.syncShapeStyle(...))]. *)
Fixpoint syncStates (env : Env) (sts : list string) (e : Element)
    (offscreenShape : option Scene.Shape) : Element * option Scene.Shape * bool :=
  match sts with
  | [] => (e, offscreenShape, true)
  | state :: rest =>
      let '(e', off', ok) := syncOnce env state e offscreenShape in
      if ok then syncStates env rest e' off' else (e', off', false)
  end.

(** The second half of [setState], after the membership change: build the
    scratch shape, apply the states, dispose of the scratch shape, notify. *)
Definition restyle (env : Env) (stateName : string) (stateStatus : bool)
    (e : Element) : Outcome :=
  let e := getOffscreenGroup e in
  let '(offscreenShape, e) := drawOn env true (shapeType e) (model e) e in
  let '(e, offscreenShape, ok) :=
    match states e with
    | [] => syncOnce env "" e offscreenShape
    | _ :: _ => syncStates env (states e) e offscreenShape
    end in
  if ok then
    match offscreenShape with
    | None => TypeError e
    | Some o =>
        let e :=
          setOffscreenGroup
            (Some (Scene.removeChild (Scene.nid (Scene.node o)) (default [] (offscreenGroup e)))) e in
        Return (emitAll [Emit "statechange" stateName stateStatus;
                         PropagationDelegate "statechange" stateName stateStatus] e)
    end
  else TypeError e.

(** [setState(stateName, stateStatus)]. *)
Definition setState (env : Env) (stateName : string) (stateStatus : bool)
    (e : Element) : Outcome :=
  let index := indexOf stateName (states e) in
  if stateStatus then
    match index with
    | Some _ => Return e
    | None =>
        let e := setStates (states e ++ [stateName]) e in
        (if raises stateName then restack Scene.toFront e else Return e)
          >>> restyle env stateName stateStatus
    end
  else
    match index with
    | None => Return e
    | Some i =>
        let e := setStates (delete i (states e)) e in
        (if raises stateName then restack Scene.toBack e else Return e)
          >>> restyle env stateName stateStatus
    end.

(** [each(states, (state) => this.setState(state, false))] of @antv/util
    on an array: [for (let i = 0, len = states.length; i < len; i++)],
    reading [states[i]] from the array as it is at that moment, which is
    the very array [setState] splices. [remaining] is [len - i]. An index
    past the end reads undefined, and [setState(undefined, false)] returns
    at [index === -1]. *)
Fixpoint eachState (env : Env) (i remaining : nat) (e : Element) : Outcome :=
  match remaining with
  | O => Return e
  | S remaining' =>
      match states e !! i with
      | Some state => setState env state false e >>> eachState env (S i) remaining'
      | None => eachState env (S i) remaining' e
      end
  end.

(** [clearStates()]. *)
Definition clearStates (env : Env) (e : Element) : Outcome :=
  eachState env 0 (length (states e)) e >>> (fun e => Return (setStates [] e)).

(** [hasState(stateName)]. *)
Definition hasState (stateName : string) (e : Element) : bool :=
  bool_decide (stateName ∈ states e).

(** [getStates()], [getData()], [getModel()]. *)
Definition getStates (e : Element) : list string := states e.
Definition getData (e : Element) : Val := data e.
Definition getModel (e : Element) : option Model.ShapeInfo := model e.

(** The body of the [labelShape.forEach] callback of [getBBox]. *)
Definition includeLabel (bbox labelBBox : BBox.t) : BBox.t :=
  BBox.mk
    (Z.min (BBox.x labelBBox) (BBox.x bbox))
    (Z.min (BBox.y labelBBox) (BBox.y bbox))
    (Z.min (BBox.minX labelBBox) (BBox.minX bbox))
    (Z.min (BBox.minY labelBBox) (BBox.minY bbox))
    (Z.max (BBox.maxX labelBBox) (BBox.maxX bbox))
    (Z.max (BBox.maxY labelBBox) (BBox.maxY bbox))
    (BBox.width bbox)
    (BBox.height bbox).

(** [getBBox()], the box returned, in exact arithmetic and from the canvas
    boxes as the shapes have them. [BoxObject.getBBox] below is the same
    method over JavaScript numbers, with the box object of the shape that
    the method writes to. *)
Definition getBBox (env : Env) (e : Element) : BBox.t :=
  let bbox :=
    match shape e with
    | Some s => getCanvasBBox env s
    | None => BBox.mk 0 0 0 0 0 0 0 0
    end in
  let bbox :=
    match labelShape e with
    | Some labels =>
        fold_left (fun bbox label => includeLabel bbox (getCanvasBBox env label)) labels bbox
    | None => bbox
    end in
  BBox.mk (BBox.x bbox) (BBox.y bbox)
    (BBox.minX bbox) (BBox.minY bbox) (BBox.maxX bbox) (BBox.maxY bbox)
    (BBox.maxX bbox - BBox.minX bbox) (BBox.maxY bbox - BBox.minY bbox).

End Element.

(** ** Statement-side definitions *)

Module Spec.
Import Model.

(** The guards under which [getStyle] writes the colour and size shorthand. *)
Definition writesStroke (cfg : ShapeInfo) (isStroke : bool) : bool :=
  truthy (color cfg) && isStroke && negb (truthy (get (ofObj (style cfg)) "stroke")).

Definition writesFill (cfg : ShapeInfo) (isFill : bool) : bool :=
  truthy (color cfg) && isFill && negb (truthy (get (ofObj (style cfg)) "fill")).

Definition writesSize (cfg : ShapeInfo) (sizeName : string) : bool :=
  negb (String.eqb sizeName "")
  && isNil (get (ofObj (style cfg)) sizeName)
  && negb (isNil (size cfg)).

(** Field-wise merge with the user's value winning. *)
Definition userFirst (user dflt : option Obj) (field : string) : option Val :=
  match own user field with
  | Some v => Some v
  | None => own dflt field
  end.

(** The keys under which one reconciliation pass looked up state styles,
    in program order. *)
Definition lookupKeys (l : list Element.Effect) : list Element.Key :=
  omap (fun ef =>
    match ef with
    | Element.GetStateStyle _ k => Some k
    | _ => None
    end) l.

(** The leaves of a shape tree in flattened order. *)
Fixpoint leaves (s : Scene.Shape) : list Scene.Node :=
  match s with
  | Scene.Leaf n => [n]
  | Scene.Group _ children => flat_map leaves children
  end.

(** Numbering across the whole tree: the k-th leaf in flattened order is
    looked up under its name, or under k when it has none. *)
Definition flatKeys (s : Scene.Shape) : list Element.Key :=
  imap (fun k n => Element.shapeKeyOf n k) (leaves s).

(** The paths of child positions below the siblings from position [i] on. *)
Fixpoint childPaths (paths : Scene.Shape -> list (list nat * Scene.Node))
    (children : list Scene.Shape) (i : nat) : list (list nat * Scene.Node) :=
  match children with
  | [] => []
  | child :: rest =>
      map (fun pn => (i :: fst pn, snd pn)) (paths child) ++ childPaths paths rest (S i)
  end.

(** Every leaf with the child positions on its path from the root, in
    flattened order. *)
Fixpoint leafPaths (s : Scene.Shape) : list (list nat * Scene.Node) :=
  match s with
  | Scene.Leaf n => [([], n)]
  | Scene.Group _ children => childPaths leafPaths children 0
  end.

(** The key of a leaf reached by a path, in a pass started at [index]:
    its name, or [index] plus the sum of the positions on the path. *)
Definition pathKey (index : nat) (pn : list nat * Scene.Node) : Element.Key :=
  Element.shapeKeyOf (snd pn) (index + sum_list (fst pn)).

(** [shape.isGroup()] is false. *)
Definition isLeaf (s : Scene.Shape) : Prop := Scene.isGroup s = false.

(** The statechange notifications in a trace: state name and new status. *)
Definition stateChanges (l : list Element.Effect) : list (string * bool) :=
  omap (fun ef =>
    match ef with
    | Element.Emit "statechange" state status => Some (state, status)
    | _ => None
    end) l.

(** The attributes of every node of a shape tree, parents first. *)
Fixpoint treeAttrs (s : Scene.Shape) : list Obj :=
  match s with
  | Scene.Leaf n => [Scene.attrs n]
  | Scene.Group n children => Scene.attrs n :: flat_map treeAttrs children
  end.

(** The attributes of the element's shape (of its root node). *)
Definition shapeAttrs (e : Element.Element) : option Obj :=
  Scene.attrs <$> (Scene.node <$> Element.shape e).



End Spec.

(** ** Concrete inputs *)

Module Sample.
Import Model.

(** [{ style: { stroke: null }, color: 'red' }]. *)
Definition strokeOff : ShapeInfo :=
  mkShapeInfo (Some {[ "stroke" := VNull ]}) None (VStr "red") VUndef (ShapeName "line") VUndef.

(** [{ style: { lineWidth: null }, size: 2 }]. *)
Definition widthNull : ShapeInfo :=
  mkShapeInfo (Some {[ "lineWidth" := VNull ]}) None VUndef (VNum 2) (ShapeName "line") VUndef.

(** [{ style: { stroke: 'blue', lineWidth: 4 }, defaultStyle: { stroke: 'grey', opacity: 1 },
       color: 'red', size: 2 }]. *)
Definition styled : ShapeInfo :=
  mkShapeInfo (Some {[ "stroke" := VStr "blue"; "lineWidth" := VNum 4 ]})
    (Some {[ "stroke" := VStr "grey"; "opacity" := VNum 1 ]})
    (VStr "red") (VNum 2) (ShapeName "line") VUndef.

(** [geometry.animate({ enter: { duration: 500 } })]. *)
Definition enterOnly : Animate.AnimateOption :=
  Animate.AnimObj {[ "enter" := Animate.KCfg {[ "duration" := VNum 500 ]} ]}.

(** [geometry.animate({ update: { duration: 500 } })] over the default
    [{ duration: 300, easing: 'easeQuadInOut' }]. *)
Definition updateTuned : Animate.AnimateOption :=
  Animate.AnimObj {[ "update" := Animate.KCfg {[ "duration" := VNum 500 ]} ]}.

Definition updateDefault : Obj :=
  {[ "duration" := VNum 300; "easing" := VStr "easeQuadInOut" ]}.

(** A point drawn as one circle whose attributes are the resolved style. *)
Definition circle (attrs : Obj) : Scene.Shape :=
  Scene.Leaf (Scene.mkNode 0 None attrs true None false VUndef []).

(** A group of shapes. *)
Definition group (children : list Scene.Shape) : Scene.Shape :=
  Scene.Group (Scene.mkNode 0 None ∅ true None false VUndef []) children.

(** Two groups of two unnamed circles each. *)
Definition twoByTwo : Scene.Shape :=
  group [group [circle ∅; circle ∅]; group [circle ∅; circle ∅]].

(** One group of three unnamed circles. *)
Definition threeInARow : Scene.Shape :=
  group [circle ∅; circle ∅; circle ∅].

(** A shape factory that draws every model as one circle. *)
Definition pointFactory (shapeType : option string) (model : option ShapeInfo)
    : option Scene.Shape :=
  match model with
  | Some m => Some (circle (GetStyle.getStyle m false true "r"))
  | None => None
  end.

(** A custom shape that renders nothing. *)
Definition emptyFactory (shapeType : option string) (model : option ShapeInfo)
    : option Scene.Shape := None.

(** A theme that paints active points red and outlines selected ones. *)
Definition pointTheme : Val :=
  VObj {[ "point" := VObj {[
    "active" := VObj {[ "style" := VObj {[ "fill" := VStr "red" ]} ]};
    "selected" := VObj {[ "style" := VObj {[ "stroke" := VStr "black" ]} ]} ]} ]}.

(** A canvas box placed by the node's identity. *)
Definition boxOf (s : Scene.Shape) : BBox.t :=
  let n := Z.of_nat (Scene.nid (Scene.node s)) in
  BBox.mk (10 * n) (-5 * n) (10 * n) (-5 * n) (10 * n + 20) (-5 * n + 8) 20 8.

(** An environment around a factory, an animation option and the built-in
    animation defaults. *)
Definition env (factory : option string -> option ShapeInfo -> option Scene.Shape)
    (animate : Animate.AnimateOption) (defaults : string -> option Obj) : Element.Env :=
  Element.mkEnv factory "point" animate VUndef pointTheme defaults
    (fun _ _ => VUndef) boxOf.

Definition noDefaults (kind : string) : option Obj := None.

Definition updateDefaults (kind : string) : option Obj :=
  if String.eqb kind "update" then Some updateDefault else None.

(** [{ shape: 'point', color: 'blue', data: 1 }]. *)
Definition bluePoint : ShapeInfo :=
  mkShapeInfo None None (VStr "blue") VUndef (ShapeName "point") (VNum 1).

(** An element just constructed: visible, nothing drawn, an empty container. *)
Definition fresh : Element.Element := Element.create true None [] 0.

(** Synchronous styling: animation switched off. *)
Definition still : Element.Env :=
  env pointFactory (Animate.AnimBool false) noDefaults.

(** The element after [draw({ shape: 'point', color: 'blue', data: 1 })]
    into a container that already holds two other shapes. *)
Definition drawn : Element.Element :=
  Element.draw still bluePoint false (Element.create true None [1; 2] 3).

(** The same element after [setState('active', true)] and
    [setState('selected', true)]. *)
Definition bothOn : Element.Element :=
  Element.final
    (Element.setState still "selected" true
       (Element.final (Element.setState still "active" true drawn))).

(** An element that owns a circle (node 3) and to which the geometry
    attached two labels (nodes 5 and 1). *)
Definition dot : Scene.Shape := Scene.withNode (Scene.setNid 3) (circle ∅).

Definition twoLabels : list Scene.Shape :=
  [Scene.withNode (Scene.setNid 5) (group []); Scene.withNode (Scene.setNid 1) (group [])].

Definition labelled : Element.Element :=
  Element.setLabelShape (Some twoLabels)
    (Element.setShape (Some dot) (Element.create true None [1; 5; 3] 6)).

(** A custom factory that renders points only while they carry a colour. *)
Definition colouredOnly (shapeType : option string) (model : option ShapeInfo)
    : option Scene.Shape :=
  match model with
  | Some m => if truthy (color m) then pointFactory shapeType model else None
  | None => None
  end.

(** [{ shape: 'point', data: 2 }]: no colour. *)
Definition plainPoint : ShapeInfo :=
  mkShapeInfo None None VUndef VUndef (ShapeName "point") (VNum 2).

(** [{ style: { 'a.b': 5 }, size: 2 }]: an attribute whose name holds a dot. *)
Definition dotted : ShapeInfo :=
  mkShapeInfo (Some {[ "a.b" := VNum 5 ]}) None VUndef (VNum 2) (ShapeName "line") VUndef.

(** [geometry.animate({ enter: { duration: 500 } })] with no built-in
    defaults: nothing is configured for the leave kind. *)
Definition enterEnv : Element.Env := env pointFactory enterOnly noDefaults.

(** A blue point drawn in that environment into a container that already
    holds two other shapes, with the state active set. *)
Definition entered : Element.Element :=
  Element.final
    (Element.setState enterEnv "active" true
       (Element.draw enterEnv bluePoint false (Element.create true None [1; 2] 3))).

End Sample.

(** ** shape/area/util.ts *)

Module Area.

(** A point, and a position [[x, y]]. *)
Record Point := mkPoint {
  x : Z;
  y : Z;
}.

Abbreviation Position := (Z * Z)%type.

(** A path command, [['M', x, y]], as the array of its entries. *)
Abbreviation PathCommand := (list Val).

(** What the module imports and is handed: [registeredShape.parsePoints],
    [getLinePath] and [getSplinePath] of util/path, [getPathPoints] of
    util/get-path-points. A key point of an area is the pair
    [[bottom, top]]. *)
Record Deps := mkDeps {
  parsePoints : list Point -> list Point;
  getLinePath : list Point -> bool -> list PathCommand;
  getSplinePath : list Point -> bool -> option (list Position) -> list PathCommand;
  getPathPoints : list (Point * Point) -> bool -> list (list (Point * Point));
}.

(** [subPath[0][0] = 'L']; an empty [subPath] has no [subPath[0]] and the
    assignment throws. *)
Definition lineTo (subPath : list PathCommand) : option (list PathCommand) :=
  match subPath with
  | [] => None
  | [] :: rest => Some ([VStr "L"] :: rest)
  | (_ :: args) :: rest => Some ((VStr "L" :: args) :: rest)
  end.

(** The callback of [each([topLinePoints, bottomLinePoints], ...)] in
    [getPath], up to the sub-path it appends; [None] is a [TypeError]
    ([p1.x] of an undefined [p1], or the assignment above). *)
Definition subPathOf (deps : Deps) (isInCircle smooth : bool)
    (constraint : option (list Position)) (pointsData : list Point) (index : nat)
    : option (list PathCommand) :=
  let parsedPoints := parsePoints deps pointsData in
  let closed :=
    if isInCircle then
      match head parsedPoints with
      | Some p1 => Some (parsedPoints ++ [mkPoint (x p1) (y p1)])
      | None => None
      end
    else Some parsedPoints in
  match closed with
  | None => None
  | Some parsedPoints =>
      let subPath :=
        if smooth then getSplinePath deps parsedPoints false constraint
        else getLinePath deps parsedPoints false in
      if Nat.ltb 0 index then lineTo subPath else Some subPath
  end.

(** [getPath(points, isInCircle, smooth, registeredShape, constraint)]. *)
Definition getPath (deps : Deps) (points : list (Point * Point))
    (isInCircle smooth : bool) (constraint : option (list Position))
    : option (list PathCommand) :=
  let topLinePoints := map snd points in
  let bottomLinePoints := rev (map fst points) in
  match subPathOf deps isInCircle smooth constraint topLinePoints 0 with
  | None => None
  | Some top =>
      match subPathOf deps isInCircle smooth constraint bottomLinePoints 1 with
      | None => None
      | Some bottom => Some ((top ++ bottom) ++ [[VStr "Z"]])
      end
  end.

(** The fields of the model that only area shapes read. *)
Record AreaInfo := mkAreaInfo {
  info : Model.ShapeInfo;
  connectNulls : bool;
  isInCircle : bool;
  points : list (Point * Point);
}.

(** [each(pathPoints, (eachPoints) => path = path.concat(getPath(...)))]. *)
Fixpoint concatPaths (deps : Deps) (pathPoints : list (list (Point * Point)))
    (isInCircle smooth : bool) (constraint : option (list Position))
    (path : list PathCommand) : option (list PathCommand) :=
  match pathPoints with
  | [] => Some path
  | eachPoints :: rest =>
      match getPath deps eachPoints isInCircle smooth constraint with
      | None => None
      | Some p => concatPaths deps rest isInCircle smooth constraint (path ++ p)
      end
  end.

(** The answer of [getShapeAttrs]: the attributes other than [path], and
    the value assigned to [attrs.path]. *)
Record ShapeAttrs := mkShapeAttrs {
  attrs : Obj;
  path : list PathCommand;
}.

(** [getShapeAttrs(cfg, isStroke, smooth, registeredShape, constraint)]:
    [getStyle] is evaluated first, then the paths; [attrs.path = path]
    replaces whatever the style had under [path]. *)
Definition getShapeAttrs (deps : Deps) (cfg : AreaInfo) (isStroke smooth : bool)
    (constraint : option (list Position)) : option ShapeAttrs :=
  let attrs := GetStyle.getStyle (info cfg) isStroke (negb isStroke) "lineWidth" in
  let pathPoints := getPathPoints deps (points cfg) (connectNulls cfg) in
  match concatPaths deps pathPoints (isInCircle cfg) smooth constraint [] with
  | None => None
  | Some path => Some (mkShapeAttrs (delete "path" attrs) path)
  end.

(** A coordinate, as far as [getConstraint] reads it. *)
Record Coordinate := mkCoordinate {
  start : Point;
  end_ : Point;
}.

(** [getConstraint(coordinate)]. *)
Definition getConstraint (coordinate : Coordinate) : list Position :=
  [(x (start coordinate), y (end_ coordinate));
   (x (end_ coordinate), y (start coordinate))].

End Area.

(** ** Further statement-side definitions *)

Module View.

(** A shape tree with the attributes of its leaves blanked: what is left
    is the structure, the identities, names, visibility and tags of all
    nodes and the attributes of the groups. *)
Fixpoint skeleton (s : Scene.Shape) : Scene.Shape :=
  match s with
  | Scene.Leaf n => Scene.Leaf (Scene.setAttrs ∅ n)
  | Scene.Group n children => Scene.Group n (map skeleton children)
  end.

(** Every node of a shape tree, parents first. *)
Fixpoint nodes (s : Scene.Shape) : list Scene.Node :=
  match s with
  | Scene.Leaf n => [n]
  | Scene.Group n children => n :: flat_map nodes children
  end.

(** The calls into the animation driver. *)
Definition isAnimation (ef : Element.Effect) : bool :=
  match ef with
  | Element.DoAnimate _ _ _ _ | Element.StopAnimate _ | Element.AnimateTo _ _ _ => true
  | _ => false
  end.

Definition animations (l : list Element.Effect) : list Element.Effect :=
  List.filter isAnimation l.

Definition quiet (ef : Element.Effect) : Prop := isAnimation ef = false.

(** The shapes handed to [doAnimate], in program order. *)
Definition animated (l : list Element.Effect) : list Scene.Shape :=
  omap (fun ef =>
    match ef with
    | Element.DoAnimate s _ _ _ => Some s
    | _ => None
    end) l.

(** The state-style lookups, and the notifications. *)
Definition isLookup (ef : Element.Effect) : bool :=
  match ef with
  | Element.GetStateStyle _ _ => true
  | _ => false
  end.

Definition isNotification (ef : Element.Effect) : bool :=
  match ef with
  | Element.Emit _ _ _ | Element.PropagationDelegate _ _ _ => true
  | _ => false
  end.

(** [e'] differs from [e] at most in its shape, its off-screen group, the
    container's children, the fresh identity and the trace. *)
Definition sameData (e e' : Element.Element) : Prop :=
  Element.visible e' = Element.visible e
  ∧ Element.model e' = Element.model e
  ∧ Element.data e' = Element.data e
  ∧ Element.shapeType e' = Element.shapeType e
  ∧ Element.labelShape e' = Element.labelShape e.

(** The shape of [e'] is that of [e] up to attributes of leaves. *)
Definition sameSkeleton (e e' : Element.Element) : Prop :=
  skeleton <$> Element.shape e' = skeleton <$> Element.shape e.

(** The trace of [e'] is that of [e] followed by calls that satisfy [P]. *)
Definition addedCalls (P : Element.Effect -> Prop) (e e' : Element.Element) : Prop :=
  exists added, Element.trace e' = Element.trace e ++ added /\ Forall P added.

(** The members at positions 0, 2, 4, ... of a list. *)
Fixpoint evens {A : Type} (l : list A) : list A :=
  match l with
  | [] => []
  | [a] => [a]
  | a :: _ :: rest => a :: evens rest
  end.

(** The children of the off-screen group; none before it exists. *)
Definition scratch (e : Element.Element) : list nat :=
  default [] (Element.offscreenGroup e).

(** What [drawShape] makes of the shape [s] the factory built for [model]:
    the node it becomes in the container, annotated, named and tagged. *)
Definition adopted (env : Element.Env) (model : Model.ShapeInfo) (id : nat)
    (s : Scene.Shape) : Scene.Shape :=
  let s := Element.setShapeInfo model (Scene.withNode (Scene.setNid id) s) in
  let s :=
    if Element.unnamed (Scene.node s)
    then Scene.withNode (Scene.setName (Element.geometryType env)) s
    else s in
  Scene.withNode (Scene.setInheritNames ["element"]) s.

(** The identity of the root of an optional shape. *)
Definition rootId (s : option Scene.Shape) : option nat :=
  (fun t => Scene.nid (Scene.node t)) <$> s.


(** The points handed to the path builder for one line of an area: the
    parsed points, followed in a circle by a copy of the first of them. *)
Definition ring (deps : Area.Deps) (isInCircle : bool) (pointsData : list Area.Point)
    : list Area.Point :=
  let parsed := Area.parsePoints deps pointsData in
  if isInCircle then
    match head parsed with
    | Some p1 => parsed ++ [Area.mkPoint (Area.x p1) (Area.y p1)]
    | None => parsed
    end
  else parsed.

(** The path builder [getPath] selects. *)
Definition build (deps : Area.Deps) (smooth : bool)
    (constraint : option (list Area.Position)) (pts : list Area.Point)
    : list Area.PathCommand :=
  if smooth then Area.getSplinePath deps pts false constraint
  else Area.getLinePath deps pts false.

End View.

(** ** Further concrete inputs *)

Module AreaSample.

(** A path builder that moves to the first point and draws lines to the
    others. *)
Definition polyline (pts : list Area.Point) : list Area.PathCommand :=
  imap (fun i p =>
    [VStr (if Nat.eqb i 0 then "M" else "L"); VNum (Area.x p); VNum (Area.y p)]) pts.

Definition deps : Area.Deps :=
  Area.mkDeps (fun pts => pts) (fun pts _ => polyline pts) (fun pts _ _ => polyline pts)
    (fun pts _ => [pts]).

(** Two key points of an area, each [[bottom, top]]. *)
Definition band : list (Area.Point * Area.Point) :=
  [(Area.mkPoint 0 0, Area.mkPoint 0 5); (Area.mkPoint 10 0, Area.mkPoint 10 7)].

(** [{ style: { fill: 'green' }, defaultStyle: { stroke: 'grey', fill: 'grey' },
       color: 'red', size: 2 }]. *)
Definition areaModel : Model.ShapeInfo :=
  Model.mkShapeInfo (Some {[ "fill" := VStr "green" ]})
    (Some {[ "stroke" := VStr "grey"; "fill" := VStr "grey" ]})
    (VStr "red") (VNum 2) (Model.ShapeName "area") VUndef.

Definition area : Area.AreaInfo := Area.mkAreaInfo areaModel false false band.

End AreaSample.

(** ** Property names outside the own properties *)

Module Plain.

(** The names every plain object answers through [Object.prototype]. *)
Definition inherited : list string :=
  ["constructor"; "__proto__"; "hasOwnProperty"; "isPrototypeOf";
   "propertyIsEnumerable"; "toLocaleString"; "toString"; "valueOf";
   "__defineGetter__"; "__defineSetter__"; "__lookupGetter__"; "__lookupSetter__"].

(** A name that [get(obj, key)] and [obj[key]] resolve among the own
    properties of a plain object, as [JS.prop] does: [get] does not split
    it, and the prototype does not answer it. *)
Definition ownKey (key : string) : Prop :=
  splitDot key = [key] ∧ key ∉ inherited.

(** The guards of [getStyle], on the own properties of [style]. *)
Definition styled (cfg : Model.ShapeInfo) (key : string) : Val :=
  default VUndef (own (Model.style cfg) key).

Definition sizeWritten (cfg : Model.ShapeInfo) (sizeName : string) : bool :=
  negb (String.eqb sizeName "")
  && isNil (styled cfg sizeName)
  && negb (isNil (Model.size cfg)).

Definition colorWritten (cfg : Model.ShapeInfo) (flag : bool) (attr : string) : bool :=
  truthy (Model.color cfg) && flag && negb (truthy (styled cfg attr)).

End Plain.

(** ** JavaScript numbers *)

Module Numbers.

(** What [getBBox] computes with: the literal [0], [Math.min], [Math.max]
    and [-]. *)
Record Arith (N : Type) := mkArith {
  zero : N;
  min : N -> N -> N;
  max : N -> N -> N;
  sub : N -> N -> N;
}.

Arguments mkArith {N}.
Arguments zero {N}.
Arguments min {N}.
Arguments max {N}.
Arguments sub {N}.

(** Exact integers, the numbers of [BBox.t]. *)
Definition exact : Arith Z := mkArith 0%Z Z.min Z.max Z.sub.

(** [Math.min(a, b)] on doubles: NaN when either argument is NaN, and -0
    below +0. *)
Definition mathMin (a b : PrimFloat.float) : PrimFloat.float :=
  if PrimFloat.is_nan a || PrimFloat.is_nan b then PrimFloat.nan
  else if PrimFloat.ltb a b then a
  else if PrimFloat.ltb b a then b
  else if PrimFloat.get_sign a then a else b.

(** [Math.max(a, b)] on doubles: NaN when either argument is NaN, and +0
    above -0. *)
Definition mathMax (a b : PrimFloat.float) : PrimFloat.float :=
  if PrimFloat.is_nan a || PrimFloat.is_nan b then PrimFloat.nan
  else if PrimFloat.ltb a b then b
  else if PrimFloat.ltb b a then a
  else if PrimFloat.get_sign a then b else a.

(** IEEE 754 doubles, the numbers of JavaScript; [-] rounds to nearest. *)
Definition double : Arith PrimFloat.float :=
  mkArith PrimFloat.zero mathMin mathMax PrimFloat.sub.

(** A double other than NaN. *)
Definition isNumber (a : PrimFloat.float) : Prop := PrimFloat.is_nan a = false.

(** [a <= b] on doubles. *)
Definition le (a b : PrimFloat.float) : Prop := PrimFloat.leb a b = true.

(** The integer a double stands for, when it stands for one. *)
Definition valueOf (a : PrimFloat.float) : option Z :=
  match FloatOps.Prim2SF a with
  | SpecFloat.S754_zero _ => Some 0%Z
  | SpecFloat.S754_finite s m e =>
      let n := if s then Z.neg m else Z.pos m in
      if (0 <=? e)%Z then Some (n * 2 ^ e)%Z
      else if (n mod 2 ^ (- e) =? 0)%Z then Some (n / 2 ^ (- e))%Z
      else None
  | _ => None
  end.

End Numbers.

(** ** getBBox on the box objects of the scene graph *)

Module BoxObject.
Import Numbers.

(** A canvas box over the numbers [N]. *)
Record Box (N : Type) := mkBox {
  x : N;
  y : N;
  minX : N;
  minY : N;
  maxX : N;
  maxY : N;
  width : N;
  height : N;
}.

Arguments mkBox {N}.
Arguments x {N}.
Arguments y {N}.
Arguments minX {N}.
Arguments minY {N}.
Arguments maxX {N}.
Arguments maxY {N}.
Arguments width {N}.
Arguments height {N}.

Definition ofExact (b : BBox.t) : Box Z :=
  mkBox (BBox.x b) (BBox.y b) (BBox.minX b) (BBox.minY b) (BBox.maxX b) (BBox.maxY b)
    (BBox.width b) (BBox.height b).

(** The box objects the scene graph holds, by the identity of the shape:
    [shape.getCanvasBBox()] hands out the object kept for the shape, which
    G computes once and keeps until the shape itself changes. *)
Abbreviation Boxes N := (nat -> Box N).

Definition boxId (s : Scene.Shape) : nat := Scene.nid (Scene.node s).

(** An assignment to the fields of the box object of one shape. *)
Definition write {N : Type} (id : nat) (b : Box N) (boxes : Boxes N) : Boxes N :=
  fun i => if Nat.eqb i id then b else boxes i.

(** [{ x: 0, y: 0, minX: 0, minY: 0, maxX: 0, maxY: 0, width: 0, height: 0 }]. *)
Definition literal {N : Type} (a : Arith N) : Box N :=
  mkBox (zero a) (zero a) (zero a) (zero a) (zero a) (zero a) (zero a) (zero a).

(** [label.getCanvasBBox()] inside the loop: [bbox] itself when the label
    is the element's shape, whose box object [bbox] then is. *)
Definition labelBox {N : Type} (boxes : Boxes N) (owner : option nat) (bbox : Box N)
    (label : Scene.Shape) : Box N :=
  match owner with
  | Some id => if Nat.eqb (boxId label) id then bbox else boxes (boxId label)
  | None => boxes (boxId label)
  end.

(** The body of the [labelShape.forEach] callback. *)
Definition includeLabel {N : Type} (a : Arith N) (bbox labelBBox : Box N) : Box N :=
  mkBox
    (min a (x labelBBox) (x bbox))
    (min a (y labelBBox) (y bbox))
    (min a (minX labelBBox) (minX bbox))
    (min a (minY labelBBox) (minY bbox))
    (max a (maxX labelBBox) (maxX bbox))
    (max a (maxY labelBBox) (maxY bbox))
    (width bbox)
    (height bbox).

(** [bbox.width = bbox.maxX - bbox.minX; bbox.height = bbox.maxY - bbox.minY]. *)
Definition measure {N : Type} (a : Arith N) (bbox : Box N) : Box N :=
  mkBox (x bbox) (y bbox) (minX bbox) (minY bbox) (maxX bbox) (maxY bbox)
    (sub a (maxX bbox) (minX bbox)) (sub a (maxY bbox) (minY bbox)).

(** [getBBox()]: the box returned, and the box objects afterwards. With a
    shape, [bbox] is the object [shape.getCanvasBBox()] handed out, and all
    assignments go to that object; without one it is a new object. *)
Definition getBBox {N : Type} (a : Arith N) (boxes : Boxes N) (e : Element.Element)
    : Box N * Boxes N :=
  let owner := boxId <$> Element.shape e in
  let bbox :=
    match owner with
    | Some id => boxes id
    | None => literal a
    end in
  let bbox :=
    match Element.labelShape e with
    | Some labels =>
        fold_left (fun bbox label => includeLabel a bbox (labelBox boxes owner bbox label))
          labels bbox
    | None => bbox
    end in
  let bbox := measure a bbox in
  (bbox,
   match owner with
   | Some id => write id bbox boxes
   | None => boxes
   end).

(** [v] is the least, respectively the greatest, of [l] in the order [le]. *)
Definition least {N : Type} (le : N -> N -> Prop) (v : N) (l : list N) : Prop :=
  v ∈ l ∧ Forall (fun m => le v m) l.

Definition greatest {N : Type} (le : N -> N -> Prop) (v : N) (l : list N) : Prop :=
  v ∈ l ∧ Forall (fun m => le m v) l.

(** The six bounds of a box all satisfy [num]. *)
Definition numbers {N : Type} (num : N -> Prop) (b : Box N) : Prop :=
  num (x b) ∧ num (y b) ∧ num (minX b) ∧ num (minY b) ∧ num (maxX b) ∧ num (maxY b).

(** [b] is the union of the member boxes: each lower bound the least, each
    upper bound the greatest of the members' values. *)
Definition union {N : Type} (le : N -> N -> Prop) (b : Box N) (members : list (Box N))
    : Prop :=
  least le (x b) (map x members)
  ∧ least le (y b) (map y members)
  ∧ least le (minX b) (map minX members)
  ∧ least le (minY b) (map minY members)
  ∧ greatest le (maxX b) (map maxX members)
  ∧ greatest le (maxY b) (map maxY members).

End BoxObject.

(** ** Concrete boxes and environments *)

Module BoxSample.

(** The exact boxes of [Sample.boxOf], by the identity of the node. *)
Definition exactly : BoxObject.Boxes Z :=
  fun i => BoxObject.ofExact (Sample.boxOf (Scene.withNode (Scene.setNid i) (Sample.circle ∅))).

Import PrimFloat.
Local Open Scope float_scope.

(** Box objects in doubles: the circle (node 3) spans -1 to 2^53
    horizontally, the labels (nodes 5 and 1) lie inside that span. *)
Definition wide : BoxObject.Boxes float :=
  fun i =>
    if Nat.eqb i 3 then
      BoxObject.mkBox (opp 1) 0 (opp 1) 0 9007199254740992 8 9007199254740992 8
    else
      BoxObject.mkBox 10.5 2.25 10.5 2.25 30.5 6.75 20 4.5.

(** Box objects in doubles where the first label (node 5) has not been
    laid out: its horizontal bounds are NaN. *)
Definition unplaced : BoxObject.Boxes float :=
  fun i =>
    if Nat.eqb i 5 then BoxObject.mkBox nan 2.25 nan 2.25 nan 6.75 nan 4.5
    else BoxObject.mkBox 10.5 2.25 10.5 2.25 30.5 6.75 20 4.5.

(** Box objects in doubles placed by the identity of the node. *)
Definition placed : BoxObject.Boxes float :=
  fun i =>
    if Nat.eqb i 3 then BoxObject.mkBox 30.5 (opp 15) 30.5 (opp 15) 50.5 (opp 7) 20 8
    else if Nat.eqb i 5 then BoxObject.mkBox 50.25 (opp 25) 50.25 (opp 25) 70.25 (opp 17) 20 8
    else BoxObject.mkBox 10.125 (opp 5) 10.125 (opp 5) 30.125 3 20 8.

End BoxSample.

(** * Properties *)

(** ** Helpers on JavaScript values *)

Lemma spread_lookup (src : option Obj) (into : Obj) (k : string) :
  spread src into !! k =
  match own src k with
  | Some v => Some v
  | None => into !! k
  end.
Proof.
  destruct src as [o|]; simpl; [|done].
  rewrite lookup_union. destruct (o !! k), (into !! k); done.
Qed.

Lemma spread_twice_lookup (user dflt : option Obj) (k : string) :
  spread user (spread dflt ∅) !! k = Spec.userFirst user dflt k.
Proof.
  unfold Spec.userFirst. rewrite !spread_lookup, lookup_empty.
  destruct (own user k); [done|]. by destruct (own dflt k).
Qed.

Lemma isEmpty_Some (o : Obj) : isEmpty (Some o) = true ↔ o = ∅.
Proof. simpl. rewrite Nat.eqb_eq. apply map_size_empty_iff. Qed.

(** A key without dots names one own property. *)
Lemma get_single (obj : option Obj) (k : string) :
  splitDot k = [k] → get (ofObj obj) k = default VUndef (own obj k).
Proof.
  intros Hk. unfold get. rewrite Hk. destruct obj as [o|]; simpl; [|done].
  destruct (o !! k) as [v|]; simpl; [|done]. by destruct v.
Qed.

Lemma truthy_not_nil (v : Val) : truthy v = true → isNil v = false.
Proof. by destruct v. Qed.

(** ** getStyle *)

Section GetStyleFacts.
Import Model GetStyle Spec.

Variable cfg : ShapeInfo.
Variables isStroke isFill : bool.
Variable sizeName : string.

Lemma applyColor_lookup (attrs : Obj) (k : string) :
  applyColor cfg isStroke isFill attrs !! k =
  if writesFill cfg isFill && String.eqb k "fill" then Some (color cfg)
  else if writesStroke cfg isStroke && String.eqb k "stroke" then Some (color cfg)
  else attrs !! k.
Proof.
  unfold applyColor, writesFill, writesStroke.
  destruct (truthy (color cfg)); simpl; [|done].
  destruct isFill, isStroke; simpl;
    repeat match goal with
    | |- context [negb (truthy ?v)] => destruct (truthy v); simpl
    end;
    repeat match goal with
    | |- context [String.eqb k ?s] =>
        destruct (String.eqb_spec k s) as [->|?]; simpl
    end;
    by simplify_map_eq.
Qed.

Lemma getStyle_lookup (k : string) :
  getStyle cfg isStroke isFill sizeName !! k =
  if writesSize cfg sizeName && String.eqb k sizeName then Some (size cfg)
  else if writesFill cfg isFill && String.eqb k "fill" then Some (color cfg)
  else if writesStroke cfg isStroke && String.eqb k "stroke" then Some (color cfg)
  else mergedStyle cfg !! k.
Proof.
  unfold getStyle, applySize. fold (writesSize cfg sizeName).
  destruct (writesSize cfg sizeName); simpl; [|apply applyColor_lookup].
  destruct (String.eqb_spec k sizeName) as [->|Hne].
  - by rewrite lookup_insert_eq.
  - rewrite lookup_insert_ne by done. apply applyColor_lookup.
Qed.

End GetStyleFacts.

(** C10, as stated, fails: a stroke the user set to null in [style] is
    overwritten by the colour shorthand, a lineWidth the user set to null
    is overwritten by the size shorthand, and under a size name with a dot,
    which [get] splits into a path, even the number the user stored under
    that name is overwritten. *)
Lemma getStyle_overrides_null_style :
  own (Model.style Sample.strokeOff) "stroke" = Some VNull
  ∧ GetStyle.getStyle Sample.strokeOff true false "lineWidth" !! "stroke" = Some (VStr "red")
  ∧ own (Model.style Sample.widthNull) "lineWidth" = Some VNull
  ∧ GetStyle.getStyle Sample.widthNull true false "lineWidth" !! "lineWidth" = Some (VNum 2)
  ∧ own (Model.style Sample.dotted) "a.b" = Some (VNum 5)
  ∧ GetStyle.getStyle Sample.dotted true false "a.b" !! "a.b" = Some (VNum 2).
Proof.
  repeat (match goal with |- _ ∧ _ => split end); vm_compute; reflexivity.
Qed.

(** For a size name that [get] does not split, the three guards read the
    own properties of [style]. *)
Lemma guards_on_own (cfg : Model.ShapeInfo) (isStroke isFill : bool) (sizeName : string) :
  splitDot sizeName = [sizeName] →
  Spec.writesSize cfg sizeName = Plain.sizeWritten cfg sizeName
  ∧ Spec.writesFill cfg isFill = Plain.colorWritten cfg isFill "fill"
  ∧ Spec.writesStroke cfg isStroke = Plain.colorWritten cfg isStroke "stroke".
Proof.
  intros Hsz.
  unfold Spec.writesSize, Spec.writesFill, Spec.writesStroke, Plain.sizeWritten,
    Plain.colorWritten, Plain.styled.
  rewrite (get_single _ sizeName Hsz), (get_single _ "fill" eq_refl),
    (get_single _ "stroke" eq_refl).
  done.
Qed.

(** C10, amended: for a size name that is a plain attribute name (no dot,
    not a name inherited from Object.prototype), every field of the result
    is: the size, under [sizeName], when that name is not empty, the value
    of [style] for it is absent or nil and the size is not nil; else the
    colour, under fill with [isFill] and under stroke with [isStroke], when
    the colour is truthy and the value of [style] for that attribute is
    absent or falsy (undefined, null, false, 0, the empty string); else the
    value of [style], or failing that of [defaultStyle]. Hence an attribute
    the user set to a truthy value is never overridden, while one set to
    null (for stroke and fill, to any falsy value) is overridden by the
    shorthand that applies to it. *)
Theorem getStyle_shorthand
    (cfg : Model.ShapeInfo) (isStroke isFill : bool) (sizeName k : string) :
  Plain.ownKey sizeName →
  let r := GetStyle.getStyle cfg isStroke isFill sizeName in
  r !! k
  = (if Plain.sizeWritten cfg sizeName && String.eqb k sizeName
     then Some (Model.size cfg)
     else if Plain.colorWritten cfg isFill "fill" && String.eqb k "fill"
     then Some (Model.color cfg)
     else if Plain.colorWritten cfg isStroke "stroke" && String.eqb k "stroke"
     then Some (Model.color cfg)
     else Spec.userFirst (Model.style cfg) (Model.defaultStyle cfg) k)
  ∧ (∀ v, own (Model.style cfg) k = Some v → truthy v = true → r !! k = Some v)
  ∧ (sizeName ≠ "" → isNil (Plain.styled cfg sizeName) = true →
     isNil (Model.size cfg) = false → r !! sizeName = Some (Model.size cfg))
  ∧ (sizeName ≠ "stroke" → isStroke = true → truthy (Model.color cfg) = true →
     truthy (Plain.styled cfg "stroke") = false → r !! "stroke" = Some (Model.color cfg))
  ∧ (sizeName ≠ "fill" → isFill = true → truthy (Model.color cfg) = true →
     truthy (Plain.styled cfg "fill") = false → r !! "fill" = Some (Model.color cfg)).
Proof.
  intros [Hsz _] r.
  destruct (guards_on_own cfg isStroke isFill sizeName Hsz) as (Gs & Gf & Gk).
  assert (Hr : ∀ k, r !! k
    = (if Plain.sizeWritten cfg sizeName && String.eqb k sizeName
       then Some (Model.size cfg)
       else if Plain.colorWritten cfg isFill "fill" && String.eqb k "fill"
       then Some (Model.color cfg)
       else if Plain.colorWritten cfg isStroke "stroke" && String.eqb k "stroke"
       then Some (Model.color cfg)
       else Spec.userFirst (Model.style cfg) (Model.defaultStyle cfg) k)).
  { intros k'. subst r. rewrite getStyle_lookup, Gs, Gf, Gk.
    unfold GetStyle.mergedStyle. by rewrite spread_twice_lookup. }
  split; [apply Hr|]. split; [|split; [|split]].
  - intros v Hv Ht. rewrite Hr.
    assert (Hown : Plain.styled cfg k = v) by (unfold Plain.styled; by rewrite Hv).
    destruct (Plain.sizeWritten cfg sizeName && String.eqb k sizeName) eqn:Esz.
    { apply andb_prop in Esz as [Hw Hk]. apply String.eqb_eq in Hk. subst sizeName.
      unfold Plain.sizeWritten in Hw. rewrite Hown, (truthy_not_nil v Ht) in Hw.
      by rewrite andb_false_r in Hw. }
    destruct (Plain.colorWritten cfg isFill "fill" && String.eqb k "fill") eqn:Efi.
    { apply andb_prop in Efi as [Hw Hk]. apply String.eqb_eq in Hk. subst k.
      unfold Plain.colorWritten in Hw. rewrite Hown, Ht in Hw.
      by rewrite andb_false_r in Hw. }
    destruct (Plain.colorWritten cfg isStroke "stroke" && String.eqb k "stroke") eqn:Est.
    { apply andb_prop in Est as [Hw Hk]. apply String.eqb_eq in Hk. subst k.
      unfold Plain.colorWritten in Hw. rewrite Hown, Ht in Hw.
      by rewrite andb_false_r in Hw. }
    unfold Spec.userFirst. by rewrite Hv.
  - intros Hne Hnil Hsize. rewrite Hr. unfold Plain.sizeWritten.
    rewrite Hnil, Hsize, String.eqb_refl.
    apply String.eqb_neq in Hne. by rewrite Hne.
  - intros Hne -> Hcol Hfalsy. rewrite Hr.
    assert (E : String.eqb "stroke" sizeName = false)
      by (apply String.eqb_neq; congruence).
    rewrite E, andb_false_r. simpl. rewrite andb_false_r.
    unfold Plain.colorWritten. by rewrite Hcol, Hfalsy.
  - intros Hne -> Hcol Hfalsy. rewrite Hr.
    assert (E : String.eqb "fill" sizeName = false)
      by (apply String.eqb_neq; congruence).
    rewrite E, andb_false_r. simpl.
    unfold Plain.colorWritten. by rewrite Hcol, Hfalsy.
Qed.

Lemma getStyle_shorthand_witness :
  Plain.ownKey "lineWidth"
  ∧ GetStyle.getStyle Sample.styled true false "lineWidth" !! "stroke" = Some (VStr "blue")
  ∧ GetStyle.getStyle Sample.widthNull true false "lineWidth" !! "lineWidth" = Some (VNum 2).
Proof.
  assert (Hk : Plain.ownKey "lineWidth").
  { split; [reflexivity|]. apply (bool_decide_unpack _). vm_compute. exact I. }
  split; [exact Hk|]. split.
  - destruct (getStyle_shorthand Sample.styled true false "lineWidth" "stroke" Hk)
      as (_ & H & _).
    apply H; vm_compute; reflexivity.
  - destruct (getStyle_shorthand Sample.widthNull true false "lineWidth" "lineWidth" Hk)
      as (_ & _ & H & _).
    apply H; [discriminate|reflexivity|reflexivity].
Defined.

(** ** Animation-config resolution *)

(** C4, as stated, fails: with the switch on through a configuration
    object that says nothing about the leave kind, and no built-in default,
    the answer is an empty configuration, not "no animation". *)
Lemma getAnimateCfg_object_without_kind :
  let env := Sample.env Sample.pointFactory Sample.enterOnly Sample.noDefaults in
  Animate.switchedOn (Element.animateOption env) = true
  ∧ Animate.entry (Element.animateOption env) "leave" = None
  ∧ isEmpty (Element.getDefaultAnimateCfg env "leave") = true
  ∧ Element.getAnimateCfg env "leave" = Some ∅.
Proof. repeat split; vm_compute; reflexivity. Qed.

(** C4, amended: no animation exactly when the switch is off
    ([animateOption] is false), when [animateOption] is the bare [true]
    (the user configured nothing at all) and the built-in default for the
    kind is empty or missing, or when the user set this kind to false or
    null; in every other case the answer is the built-in default merged
    with the user's entry for the kind, the user's value winning per
    field. *)
Theorem getAnimateCfg_resolution (env : Element.Env) (animateType : string) :
  let animate := Element.animateOption env in
  let defaultCfg := Element.getDefaultAnimateCfg env animateType in
  let off :=
    animate = Animate.AnimBool false
    ∨ (animate = Animate.AnimBool true ∧ isEmpty defaultCfg = true)
    ∨ Animate.entry animate animateType = Some Animate.KFalse
    ∨ Animate.entry animate animateType = Some Animate.KNull in
  match Element.getAnimateCfg env animateType with
  | None => off
  | Some r =>
      ¬ off
      ∧ ∀ field,
          r !! field
          = Spec.userFirst (Animate.entryCfg (Animate.entry animate animateType))
              defaultCfg field
  end.
Proof.
  intros animate defaultCfg off. unfold Element.getAnimateCfg, Animate.resolve.
  fold animate defaultCfg. subst off.
  destruct animate as [[|]|o]; simpl.
  - destruct (isEmpty defaultCfg) eqn:E; simpl.
    + right; left; done.
    + split; [|intros field; exact (spread_twice_lookup None defaultCfg field)].
      intros [?|[[_ ?]|[?|?]]]; congruence.
  - by left.
  - destruct (o !! animateType) as [[| |c]|] eqn:E; simpl.
    + right; right; left; done.
    + right; right; right; done.
    + split; [|intros field; exact (spread_twice_lookup (Some c) defaultCfg field)].
      intros [?|[[? _]|[?|?]]]; congruence.
    + split; [|intros field; exact (spread_twice_lookup None defaultCfg field)].
      intros [?|[[? _]|[?|?]]]; congruence.
Qed.

(** ** Shape trees *)

(** Induction over a shape tree with the hypothesis for every child. *)
Lemma Shape_tree_ind (P : Scene.Shape → Prop) :
  (∀ n, P (Scene.Leaf n)) →
  (∀ n children, Forall P children → P (Scene.Group n children)) →
  ∀ s, P s.
Proof.
  intros Hleaf Hgroup. fix IH 1. intros [n|n children].
  - apply Hleaf.
  - apply Hgroup. induction children as [|c rest IHrest]; constructor.
    + apply IH.
    + exact IHrest.
Qed.

(** ** The lookup keys of one reconciliation pass *)

Section SyncKeys.
Import Element Spec.

Variable env : Env.
Variable this : Element.
Variable state : string.
Variable animateCfg : option Obj.
Hypothesis state_given : state ≠ "".

Lemma lookupKeys_app (a b : list Effect) :
  lookupKeys (a ++ b) = lookupKeys a ++ lookupKeys b.
Proof. apply omap_app. Qed.

Lemma syncLeaf_lookupKeys (n : Scene.Node) (t : option Scene.Shape) (index : nat) :
  completed (syncLeaf env this (Scene.Leaf n) t state animateCfg index) = true →
  lookupKeys (effects (syncLeaf env this (Scene.Leaf n) t state animateCfg index))
  = [shapeKeyOf n index].
Proof.
  unfold syncLeaf.
  assert (Hs : String.eqb state "" = false) by (by apply String.eqb_neq).
  rewrite Hs. simpl.
  destruct t as [t|]; [|discriminate].
  destruct animateCfg as [c|]; [reflexivity|].
  destruct (isNull _); [reflexivity|].
  destruct (Animate.switchedOn _); reflexivity.
Qed.

Lemma pathKey_cons (index i : nat) (pn : list nat * Scene.Node) :
  pathKey index (i :: fst pn, snd pn) = pathKey (index + i) pn.
Proof. unfold pathKey. simpl. f_equal. lia. Qed.

Lemma syncChildren_lookupKeys (index : nat) (children : list Scene.Shape) :
  Forall (fun c => ∀ t idx,
    completed (syncShapeStyle env this c t state animateCfg idx) = true →
    lookupKeys (effects (syncShapeStyle env this c t state animateCfg idx))
    = map (pathKey idx) (leafPaths c)) children →
  ∀ newChildren i,
    let r := syncChildren
               (fun c t j => syncShapeStyle env this c t state animateCfg (index + j))
               children newChildren i in
    childrenCompleted r = true →
    lookupKeys (childEffects r) = map (pathKey index) (childPaths leafPaths children i).
Proof.
  induction 1 as [|c rest Hc _ IH]; intros newChildren i; [reflexivity|].
  cbn [syncChildren childPaths].
  destruct newChildren as [ncs|]; [|discriminate].
  destruct (completed (syncShapeStyle env this c (ncs !! i) state animateCfg (index + i)))
    eqn:Hdone; cbn [childrenCompleted childEffects]; [|discriminate].
  intros Hrest. rewrite lookupKeys_app, map_app, (Hc _ _ Hdone), (IH _ _ Hrest).
  f_equal. rewrite map_map. apply map_ext. intros pn. by rewrite pathKey_cons.
Qed.

Lemma syncShapeStyle_lookupKeys (sourceShape : Scene.Shape) :
  ∀ targetShape index,
    completed (syncShapeStyle env this sourceShape targetShape state animateCfg index) = true →
    lookupKeys (effects (syncShapeStyle env this sourceShape targetShape state animateCfg index))
    = map (pathKey index) (leafPaths sourceShape).
Proof.
  induction sourceShape as [n|n children IH] using Shape_tree_ind; intros t index.
  - cbn [syncShapeStyle leafPaths map]. intros Hdone.
    rewrite (syncLeaf_lookupKeys _ _ _ Hdone). unfold pathKey. simpl. f_equal. f_equal. lia.
  - cbn [syncShapeStyle leafPaths]. destruct t as [t|]; [|discriminate].
    cbn [completed effects]. apply syncChildren_lookupKeys, IH.
Qed.

(** Below a group whose children are all leaves the paths have length one. *)
Lemma childPaths_leaves (children : list Scene.Shape) (i : nat) :
  Forall isLeaf children →
  childPaths leafPaths children i
  = imap (fun k c => ([i + k], Scene.node c)) children.
Proof.
  intros H. revert i. induction H as [|c rest Hc _ IH]; intros i; [reflexivity|].
  cbn [childPaths imap]. destruct c as [n|n cs]; [|discriminate]. simpl.
  rewrite IH, Nat.add_0_r. f_equal. apply imap_ext. intros k c _. simpl.
  do 2 f_equal. lia.
Qed.

End SyncKeys.

(** C3, as stated, fails: in two groups of two unnamed leaves the pass
    looks the four leaves up under 0, 1, 1, 2, while numbering them in
    flattened order gives 0, 1, 2, 3. *)
Lemma syncShapeStyle_keys_restart_per_group :
  let r := Element.syncShapeStyle Sample.still Sample.fresh Sample.twoByTwo
             (Some Sample.twoByTwo) "active" None 0 in
  Element.completed r = true
  ∧ Spec.lookupKeys (Element.effects r)
    = [Element.KeyIndex 0; Element.KeyIndex 1; Element.KeyIndex 1; Element.KeyIndex 2]
  ∧ Spec.flatKeys Sample.twoByTwo
    = [Element.KeyIndex 0; Element.KeyIndex 1; Element.KeyIndex 2; Element.KeyIndex 3].
Proof. repeat split; vm_compute; reflexivity. Qed.

(** C3, amended: in a top-level pass with a state name that runs to its
    end, a leaf without a declared name is looked up under the sum of the
    child positions on its path from the root (each group hands its own
    index plus i to its i-th child); in a tree whose root is a group of
    leaves the i-th child is therefore looked up under i. *)
Theorem syncShapeStyle_keys_follow_paths
    (env : Element.Env) (this : Element.Element) (state : string)
    (animateCfg : option Obj) (sourceShape : Scene.Shape)
    (targetShape : option Scene.Shape) :
  state ≠ "" →
  Element.completed
    (Element.syncShapeStyle env this sourceShape targetShape state animateCfg 0) = true →
  let keys :=
    Spec.lookupKeys
      (Element.effects
         (Element.syncShapeStyle env this sourceShape targetShape state animateCfg 0)) in
  keys = map (Spec.pathKey 0) (Spec.leafPaths sourceShape)
  ∧ ∀ n children,
      sourceShape = Scene.Group n children →
      Forall Spec.isLeaf children →
      keys = imap (fun i child => Element.shapeKeyOf (Scene.node child) i) children.
Proof.
  intros Hstate Hdone keys.
  assert (Hkeys : keys = map (Spec.pathKey 0) (Spec.leafPaths sourceShape))
    by (by apply syncShapeStyle_lookupKeys).
  split; [exact Hkeys|].
  intros n children -> Hleaves. rewrite Hkeys. cbn [Spec.leafPaths].
  rewrite (childPaths_leaves children 0 Hleaves).
  change (map (Spec.pathKey 0)) with (fmap (M:=list) (Spec.pathKey 0)).
  rewrite fmap_imap. apply imap_ext. intros i child _.
  unfold Spec.pathKey. simpl. f_equal. lia.
Qed.

Lemma syncShapeStyle_keys_follow_paths_witness :
  "active" ≠ ""
  ∧ Spec.lookupKeys
      (Element.effects
         (Element.syncShapeStyle Sample.still Sample.fresh Sample.threeInARow
            (Some Sample.threeInARow) "active" None 0))
    = [Element.KeyIndex 0; Element.KeyIndex 1; Element.KeyIndex 2].
Proof.
  split; [discriminate|].
  destruct (syncShapeStyle_keys_follow_paths Sample.still Sample.fresh "active" None
              Sample.threeInARow (Some Sample.threeInARow)) as [_ H].
  - discriminate.
  - vm_compute; reflexivity.
  - rewrite (H _ _ eq_refl).
    + reflexivity.
    + repeat constructor.
Defined.

(** ** What the steps of [setState] leave alone *)

Section Frames.
Import Element.

Variable env : Env.

Lemma indexOf_None (stateName : string) (l : list string) :
  indexOf stateName l = None ↔ stateName ∉ l.
Proof.
  induction l as [|s rest IH]; cbn [indexOf].
  - split; [intros _; apply not_elem_of_nil|done].
  - rewrite not_elem_of_cons. destruct (String.eqb_spec s stateName) as [->|Hne].
    + split; [done|]. by intros [? _].
    + destruct (indexOf stateName rest); simpl.
      * split; [done|]. intros [_ H]. by apply IH in H.
      * split; [|done]. intros _. split; [congruence|]. by apply IH.
Qed.

Lemma hasState_true (stateName : string) (e : Element) :
  hasState stateName e = true → ∃ i, indexOf stateName (states e) = Some i.
Proof.
  unfold hasState. intros H%bool_decide_eq_true.
  destruct (indexOf stateName (states e)) as [i|] eqn:E; [by exists i|].
  by apply indexOf_None in E.
Qed.

Lemma hasState_false (stateName : string) (e : Element) :
  hasState stateName e = false → indexOf stateName (states e) = None.
Proof.
  unfold hasState. intros H%bool_decide_eq_false. by apply indexOf_None.
Qed.

Lemma drawOn_states offscreen st m e :
  states (drawOn env offscreen st m e).2 = states e.
Proof. unfold drawOn. destruct (drawShapeOf env st m); [destruct offscreen|]; done. Qed.

Lemma drawOn_shape offscreen st m e :
  shape (drawOn env offscreen st m e).2 = shape e.
Proof. unfold drawOn. destruct (drawShapeOf env st m); [destruct offscreen|]; done. Qed.

Lemma drawOn_model offscreen st m e :
  model (drawOn env offscreen st m e).2 = model e
  ∧ data (drawOn env offscreen st m e).2 = data e
  ∧ shapeType (drawOn env offscreen st m e).2 = shapeType e.
Proof. unfold drawOn. destruct (drawShapeOf env st m); [destruct offscreen|]; done. Qed.

Lemma drawOn_built offscreen st m e :
  is_Some (drawOn env offscreen st m e).1 ↔ is_Some (drawShapeOf env st m).
Proof.
  unfold drawOn. destruct (drawShapeOf env st m); simpl; [|done].
  split; intros _; by eexists.
Qed.

Lemma drawOn_trace offscreen st m e :
  trace (drawOn env offscreen st m e).2 = trace e ++ [DrawShape offscreen st m].
Proof. unfold drawOn. destruct (drawShapeOf env st m); [destruct offscreen|]; done. Qed.

Lemma getOffscreenGroup_frame e :
  states (getOffscreenGroup e) = states e
  ∧ shape (getOffscreenGroup e) = shape e
  ∧ trace (getOffscreenGroup e) = trace e
  ∧ container (getOffscreenGroup e) = container e.
Proof. unfold getOffscreenGroup. by destruct (offscreenGroup e). Qed.

Lemma syncOnce_states state e off :
  states (syncOnce env state e off).1.1 = states e.
Proof. unfold syncOnce. by destruct (shape e). Qed.

Lemma syncOnce_trace state e off :
  trace e `prefix_of` trace (syncOnce env state e off).1.1.
Proof.
  unfold syncOnce. destruct (shape e); simpl; [|done]. by apply prefix_app_r.
Qed.

Lemma syncOnce_without_shape state e off :
  shape e = None → syncOnce env state e off = (e, off, false).
Proof. unfold syncOnce. by intros ->. Qed.

Lemma syncStates_states sts e off :
  states (syncStates env sts e off).1.1 = states e.
Proof.
  revert e off. induction sts as [|st rest IH]; intros e off; [done|].
  cbn [syncStates]. pose proof (syncOnce_states st e off) as H1.
  destruct (syncOnce env st e off) as [[e' off'] ok]. simpl in H1.
  destruct ok; [|done]. by rewrite IH.
Qed.

Lemma syncStates_trace sts e off :
  trace e `prefix_of` trace (syncStates env sts e off).1.1.
Proof.
  revert e off. induction sts as [|st rest IH]; intros e off; [done|].
  cbn [syncStates]. pose proof (syncOnce_trace st e off) as H1.
  destruct (syncOnce env st e off) as [[e' off'] ok]. simpl in H1.
  destruct ok; [|done]. etrans; [exact H1|apply IH].
Qed.

Lemma passes_states (l : list string) e off :
  states (match l with
          | [] => syncOnce env "" e off
          | _ :: _ => syncStates env l e off
          end).1.1 = states e.
Proof. destruct l; [apply syncOnce_states|apply syncStates_states]. Qed.

(** Restyling keeps the membership list, whichever way it ends. *)
Lemma restyle_states stateName stateStatus e :
  states (final (restyle env stateName stateStatus e)) = states e.
Proof.
  unfold restyle.
  pose proof (drawOn_states true (shapeType (getOffscreenGroup e))
                (model (getOffscreenGroup e)) (getOffscreenGroup e)) as Hd.
  destruct (drawOn _ _ _ _ _) as [off e1]. simpl in Hd.
  destruct (getOffscreenGroup_frame e) as (Hg & _). rewrite Hg in Hd.
  assert (Hsync : states
            (match states e1 with
             | [] => syncOnce env "" e1 off
             | _ :: _ => syncStates env (states e1) e1 off
             end).1.1 = states e).
  { rewrite <- Hd. apply passes_states. }
  destruct (match states e1 with [] => _ | _ :: _ => _ end) as [[e2 off2] ok].
  simpl in Hsync. destruct ok; [|done]. destruct off2; done.
Qed.

Lemma restack_states move e :
  states (final (restack move e)) = states e.
Proof. unfold restack. by destruct (shape e). Qed.

Lemma andThen_final_states o k (l : list string) :
  states (final o) = l →
  (∀ e, states e = l → states (final (k e)) = l) →
  states (final (o >>> k)) = l.
Proof. intros Ho Hk. destruct o as [e|e]; simpl in *; [by apply Hk|done]. Qed.

(** The membership list after a call of [setState], returned or thrown. *)
Lemma setState_states stateName stateStatus e :
  states (final (setState env stateName stateStatus e))
  = match indexOf stateName (states e), stateStatus with
    | None, true => states e ++ [stateName]
    | Some i, false => delete i (states e)
    | _, _ => states e
    end.
Proof.
  unfold setState. destruct stateStatus, (indexOf stateName (states e)) as [i|]; try done.
  - apply andThen_final_states.
    + destruct (raises stateName); [by rewrite restack_states|done].
    + intros e' He'. by rewrite restyle_states.
  - apply andThen_final_states.
    + destruct (raises stateName); [by rewrite restack_states|done].
    + intros e' He'. by rewrite restyle_states.
Qed.

End Frames.

(** ** setState and update on an element without shape *)

Lemma update_without_shape (env : Element.Env) (m : Model.ShapeInfo) (e : Element.Element) :
  Element.shape e = None → Element.update env m e = Element.Return e.
Proof. unfold Element.update. by intros ->. Qed.

Lemma restyle_without_shape (env : Element.Env) (stateName : string) (stateStatus : bool)
    (e : Element.Element) :
  Element.shape e = None →
  Element.states e ≠ [] →
  ∃ e', Element.restyle env stateName stateStatus e = Element.TypeError e'
        ∧ Element.shape e' = None
        ∧ Element.trace e'
          = Element.trace e
            ++ [Element.DrawShape true (Element.shapeType e) (Element.model e)].
Proof.
  intros Hshape Hstates. unfold Element.restyle.
  destruct (getOffscreenGroup_frame e) as (Hgs & Hgsh & Hgt & _).
  assert (Hgm : Element.shapeType (Element.getOffscreenGroup e) = Element.shapeType e
                ∧ Element.model (Element.getOffscreenGroup e) = Element.model e).
  { unfold Element.getOffscreenGroup. by destruct (Element.offscreenGroup e). }
  destruct Hgm as [Hgty Hgm]. rewrite Hgty, Hgm.
  pose proof (drawOn_states env true (Element.shapeType e) (Element.model e)
                (Element.getOffscreenGroup e)) as Hds.
  pose proof (drawOn_shape env true (Element.shapeType e) (Element.model e)
                (Element.getOffscreenGroup e)) as Hdsh.
  pose proof (drawOn_trace env true (Element.shapeType e) (Element.model e)
                (Element.getOffscreenGroup e)) as Hdt.
  destruct (Element.drawOn _ _ _ _ _) as [off e1]. simpl in Hds, Hdsh, Hdt.
  rewrite Hgs in Hds. rewrite Hgsh, Hshape in Hdsh. rewrite Hgt in Hdt.
  rewrite Hds. destruct (Element.states e) as [|s rest]; [done|].
  cbn [Element.syncStates]. rewrite (syncOnce_without_shape env s e1 off Hdsh).
  by exists e1.
Qed.

(** C1 at the failing input: on an element that owns no shape, enabling a
    state that is not yet set does not return. By the time the [TypeError]
    leaves [setState] the name has been pushed on the states, and for a
    name other than active and selected the factory has been asked for a
    scratch shape; the element still owns no shape and nothing was
    notified. *)
Theorem setState_without_shape_throws
    (env : Element.Env) (e : Element.Element) (stateName : string) :
  Element.shape e = None →
  Element.hasState stateName e = false →
  let o := Element.setState env stateName true e in
  Element.returned o = false
  ∧ Element.states (Element.final o) = Element.states e ++ [stateName]
  ∧ (Element.raises stateName = false →
     Element.trace (Element.final o)
     = Element.trace e ++ [Element.DrawShape true (Element.shapeType e) (Element.model e)])
  ∧ Element.shape (Element.final o) = None
  ∧ Spec.stateChanges (Element.trace (Element.final o))
    = Spec.stateChanges (Element.trace e).
Proof.
  intros Hshape Hnot o.
  split; [|split; [subst o; rewrite setState_states; by rewrite (hasState_false _ _ Hnot)|]];
    subst o; unfold Element.setState; rewrite (hasState_false _ _ Hnot);
    destruct (Element.raises stateName) eqn:Hraise.
  - unfold Element.restack. simpl. by rewrite Hshape.
  - cbn [Element.andThen].
    destruct (restyle_without_shape env stateName true
                (Element.setStates (Element.states e ++ [stateName]) e))
      as (e' & -> & _); [done| |done].
    simpl. by destruct (Element.states e).
  - unfold Element.restack. simpl. rewrite Hshape. simpl. by rewrite Hshape.
  - cbn [Element.andThen].
    destruct (restyle_without_shape env stateName true
                (Element.setStates (Element.states e ++ [stateName]) e))
      as (e' & -> & Hsh & Ht); [done| |].
    + simpl. by destruct (Element.states e).
    + simpl in *. rewrite Ht. repeat split; [done|].
      unfold Spec.stateChanges. rewrite omap_app. simpl. by rewrite app_nil_r.
Qed.

Lemma setState_without_shape_throws_witness :
  Element.shape Sample.fresh = None
  ∧ Element.hasState "inactive" Sample.fresh = false
  ∧ Element.returned (Element.setState Sample.still "inactive" true Sample.fresh) = false
  ∧ Element.states (Element.final (Element.setState Sample.still "inactive" true Sample.fresh))
    = ["inactive"].
Proof.
  split; [reflexivity|]. split; [reflexivity|].
  destruct (setState_without_shape_throws Sample.still Sample.fresh "inactive"
              eq_refl eq_refl) as (H1 & H2 & _).
  split; [exact H1|exact H2].
Defined.

(** ** Redundant calls of setState *)

(** C5: enabling a state that is already set, or disabling one that is
    not, returns the element as it was (states, paint order and trace
    included); after a first enabling call, however it ends, the state is
    set, and a second identical call changes nothing: same states, same
    paint order, no further notification, and the state is still set. *)
Theorem setState_redundant_is_noop
    (env : Element.Env) (e : Element.Element) (stateName : string) :
  (if Element.hasState stateName e
   then Element.setState env stateName true e = Element.Return e
   else Element.setState env stateName false e = Element.Return e)
  ∧ let e1 := Element.final (Element.setState env stateName true e) in
    let e2 := Element.final (Element.setState env stateName true e1) in
    Element.hasState stateName e1 = true
    ∧ Element.setState env stateName true e1 = Element.Return e1
    ∧ Element.states e2 = Element.states e1
    ∧ Element.container e2 = Element.container e1
    ∧ Element.trace e2 = Element.trace e1
    ∧ Element.hasState stateName e2 = true.
Proof.
  assert (Hset : ∀ e0, Element.hasState stateName e0 = true →
                       Element.setState env stateName true e0 = Element.Return e0).
  { intros e0 [i Hi]%hasState_true. unfold Element.setState. by rewrite Hi. }
  split.
  - destruct (Element.hasState stateName e) eqn:Hhas; [by apply Hset|].
    unfold Element.setState. by rewrite (hasState_false _ _ Hhas).
  - intros e1 e2.
    assert (H1 : Element.hasState stateName e1 = true).
    { unfold Element.hasState. apply bool_decide_eq_true. subst e1.
      rewrite setState_states.
      destruct (Element.indexOf stateName (Element.states e)) as [i|] eqn:Hi.
      - destruct (decide (stateName ∈ Element.states e)) as [Hin|Hout]; [done|].
        apply indexOf_None in Hout. congruence.
      - apply elem_of_app. right. by left. }
    assert (H2 : e2 = e1) by (subst e2; by rewrite (Hset e1 H1)).
    rewrite H2. repeat split; try done. by apply Hset.
Qed.

(** ** update when the factory builds nothing *)

(** C9: on an element that owns a shape, [update] that is answered with no
    scratch shape by the factory does not return: the [TypeError] leaves it
    after the model, the datum and the shape type have been replaced; so a
    returning [update] implies that the factory built a shape. *)
Theorem update_needs_factory_shape
    (env : Element.Env) (m : Model.ShapeInfo) (e : Element.Element) (s : Scene.Shape) :
  Element.shape e = Some s →
  let o := Element.update env m e in
  (Element.drawShapeOf env (Element.getShapeType m) (Some m) = None →
   Element.returned o = false
   ∧ Element.model (Element.final o) = Some m
   ∧ Element.data (Element.final o) = Model.data m
   ∧ Element.shapeType (Element.final o) = Element.getShapeType m)
  ∧ (Element.returned o = true →
     is_Some (Element.drawShapeOf env (Element.getShapeType m) (Some m))).
Proof.
  intros Hshape o. subst o. unfold Element.update. rewrite Hshape.
  set (e1 := Element.getOffscreenGroup _).
  assert (H1 : Element.shapeType e1 = Element.getShapeType m
               ∧ Element.model e1 = Some m ∧ Element.data e1 = Model.data m).
  { subst e1. unfold Element.getOffscreenGroup. simpl.
    by destruct (Element.offscreenGroup e). }
  destruct H1 as (Hty & Hm & Hd). rewrite Hty.
  pose proof (drawOn_model env true (Element.getShapeType m) (Some m) e1) as (Hm2 & Hd2 & Hty2).
  pose proof (drawOn_built env true (Element.getShapeType m) (Some m) e1) as Hb.
  destruct (Element.drawOn _ _ _ _ _) as [newShape e2]. simpl in *.
  destruct newShape as [ns|].
  - split.
    + intros Hnone. rewrite Hnone in Hb. destruct Hb as [Hb _].
      destruct Hb as [? ?]; [by eexists|done].
    + intros _. apply Hb. by eexists.
  - split; [|done]. intros _. simpl. by rewrite Hm2, Hd2, Hty2.
Qed.

Lemma update_needs_factory_shape_witness :
  let env := Sample.env Sample.colouredOnly (Animate.AnimBool false) Sample.noDefaults in
  let e := Element.draw env Sample.bluePoint false Sample.fresh in
  let o := Element.update env Sample.plainPoint e in
  is_Some (Element.shape e)
  ∧ Element.drawShapeOf env (Element.getShapeType Sample.plainPoint) (Some Sample.plainPoint)
    = None
  ∧ Element.returned o = false
  ∧ Element.model (Element.final o) = Some Sample.plainPoint.
Proof.
  intros env e o.
  destruct (Element.shape e) as [s|] eqn:Hs; [|vm_compute in Hs; discriminate].
  split; [by eexists|]. split; [reflexivity|].
  destruct (update_needs_factory_shape env Sample.plainPoint e s Hs) as [H _].
  destruct (H eq_refl) as (H1 & H2 & _). split; [exact H1|exact H2].
Defined.

(** ** destroy *)

Lemma filter_absent (id : nat) (children : list nat) :
  id ∉ children → filter (fun c => c ≠ id) children = children.
Proof.
  induction children as [|c rest IH]; intros Hid; [done|].
  apply not_elem_of_cons in Hid as [Hne Hrest].
  rewrite filter_cons_True by congruence. by rewrite IH.
Qed.

(** Among children that occur once, [splice] at the index of a node leaves
    exactly the other children, in their order. *)
Lemma removeChild_filter (id : nat) (children : list nat) :
  NoDup children → Scene.removeChild id children = filter (fun c => c ≠ id) children.
Proof.
  induction 1 as [|c rest Hc Hrest IH]; cbn [Scene.removeChild]; [done|].
  destruct (Nat.eqb_spec c id) as [->|Hne].
  - rewrite filter_cons_False by (intros H; by apply H). by rewrite filter_absent.
  - rewrite filter_cons_True by done. by rewrite IH.
Qed.

(** The answer of [getAnimateCfg] is null exactly under one of its four
    guards. *)
Lemma getAnimateCfg_None (env : Element.Env) (animateType : string) :
  Element.getAnimateCfg env animateType = None
  ↔ Element.animateOption env = Animate.AnimBool false
    ∨ (Element.animateOption env = Animate.AnimBool true
       ∧ isEmpty (Element.getDefaultAnimateCfg env animateType) = true)
    ∨ Animate.entry (Element.animateOption env) animateType = Some Animate.KFalse
    ∨ Animate.entry (Element.animateOption env) animateType = Some Animate.KNull.
Proof.
  unfold Element.getAnimateCfg, Animate.resolve.
  destruct (Element.animateOption env) as [[|]|o]; simpl.
  - destruct (isEmpty (Element.getDefaultAnimateCfg env animateType)); simpl.
    + split; [intros _; right; left; done|done].
    + split; [done|]. intros [?|[[_ ?]|[?|?]]]; congruence.
  - split; [intros _; by left|done].
  - destruct (o !! animateType) as [[| |c]|]; simpl.
    + split; [intros _; right; right; left; done|done].
    + split; [intros _; right; right; right; done|done].
    + split; [done|]. intros [?|[[? _]|[?|?]]]; congruence.
    + split; [done|]. intros [?|[[? _]|[?|?]]]; congruence.
Qed.

(** C6, as stated, fails: with [animate({ enter: ... })] and no built-in
    default nothing is configured for the leave kind, yet [destroy] hands
    the shape to the animation driver and leaves it among the children of
    its container. The states are cleared. *)
Lemma destroy_keeps_shape_without_leave_entry :
  let env := Sample.enterEnv in
  let e := Sample.entered in
  Animate.entry (Element.animateOption env) "leave" = None
  ∧ Element.getDefaultAnimateCfg env "leave" = None
  ∧ View.rootId (Element.shape e) = Some 3
  ∧ Element.container e = [1; 2; 3]
  ∧ Element.container (Element.destroy env e) = [1; 2; 3]
  ∧ View.animated (drop (length (Element.trace e)) (Element.trace (Element.destroy env e)))
    = option_list (Element.shape e)
  ∧ Element.getStates e = ["active"]
  ∧ Element.getStates (Element.destroy env e) = [].
Proof.
  intros env e.
  repeat (match goal with |- _ ∧ _ => split end); vm_compute; reflexivity.
Qed.

(** C6, amended: [destroy] always leaves the states empty. On an element
    that owns a shape, in a container whose children occur once: when the
    resolution of the leave kind answers null (the switch is off, or
    [animateOption] is the bare [true] and there is no built-in default for
    leave, or the user set leave to false or null), the shape is gone from
    the children when [destroy] returns, the other children are all there
    in their order, and the animation driver is not called; in every other
    case, also when nothing at all is configured for leave, the children
    are as before and the shape is handed to the animation driver with the
    resolved configuration. *)
Theorem destroy_detaches_unless_animated (env : Element.Env) (e : Element.Element) :
  let animate := Element.animateOption env in
  let off :=
    animate = Animate.AnimBool false
    ∨ (animate = Animate.AnimBool true
       ∧ isEmpty (Element.getDefaultAnimateCfg env "leave") = true)
    ∨ Animate.entry animate "leave" = Some Animate.KFalse
    ∨ Animate.entry animate "leave" = Some Animate.KNull in
  let e' := Element.destroy env e in
  Element.getStates e' = []
  ∧ ∀ s,
      Element.shape e = Some s →
      NoDup (Element.container e) →
      let id := Scene.nid (Scene.node s) in
      (off →
         (id ∉ Element.container e')
         ∧ Element.container e' = filter (fun c => c ≠ id) (Element.container e)
         ∧ Element.trace e' = Element.trace e ++ [Element.SuperDestroy])
      ∧ (¬ off →
         Element.container e' = Element.container e
         ∧ ∃ animateCfg,
             Element.getAnimateCfg env "leave" = Some animateCfg
             ∧ Element.trace e'
               = Element.trace e
                 ++ [Element.DoAnimate s animateCfg (Some <$> Scene.attrs (Scene.node s)) None;
                     Element.SuperDestroy]).
Proof.
  intros animate off e'. split; [reflexivity|].
  intros s Hs Hnodup id. subst e'.
  pose proof (getAnimateCfg_None env "leave") as Hnone. fold animate off in Hnone.
  unfold Element.destroy, Element.animateToOwnAttrs. rewrite Hs.
  destruct (Element.getAnimateCfg env "leave") as [cfg|] eqn:Hcfg.
  - split.
    + intros Hoff. apply Hnone in Hoff. discriminate.
    + intros _. split; [reflexivity|]. exists cfg. split; [reflexivity|].
      simpl. by rewrite <- app_assoc.
  - split.
    + intros _. simpl. fold id. rewrite (removeChild_filter id _ Hnodup).
      split; [|split; reflexivity].
      intros Hin. apply list_elem_of_filter in Hin as [Hne _]. by apply Hne.
    + intros Hon. destruct Hon. by apply Hnone.
Qed.

Lemma destroy_detaches_unless_animated_witness :
  Element.animateOption Sample.still = Animate.AnimBool false
  ∧ NoDup (Element.container Sample.bothOn)
  ∧ Element.container Sample.bothOn = [1; 2; 3]
  ∧ Element.container (Element.destroy Sample.still Sample.bothOn) = [1; 2]
  ∧ Element.getStates (Element.destroy Sample.still Sample.bothOn) = [].
Proof.
  split; [reflexivity|].
  assert (Hc : Element.container Sample.bothOn = [1; 2; 3]) by (vm_compute; reflexivity).
  assert (Hn : NoDup (Element.container Sample.bothOn)).
  { rewrite Hc. apply NoDup_ListNoDup. repeat constructor; simpl; lia. }
  split; [exact Hn|]. split; [exact Hc|].
  destruct (destroy_detaches_unless_animated Sample.still Sample.bothOn) as [H1 H2].
  split; [|exact H1].
  destruct (Element.shape Sample.bothOn) as [s|] eqn:Hs; [|vm_compute in Hs; discriminate].
  assert (Hid : Scene.nid (Scene.node s) = 3).
  { vm_compute in Hs. injection Hs as <-. reflexivity. }
  destruct (H2 s eq_refl Hn) as [Hoff _].
  destruct Hoff as (_ & Hcont & _); [by left|].
  rewrite Hcont, Hid, Hc. reflexivity.
Defined.

(** ** changeVisible *)

Lemma setVisible_frame (v : bool) (s : Scene.Shape) :
  let s' := Scene.withNode (Scene.setVisible v) s in
  Scene.visible (Scene.node s') = v ∧ Spec.treeAttrs s' = Spec.treeAttrs s.
Proof. by destruct s. Qed.

Lemma setVisible_labels (v : bool) (labels : list Scene.Shape) :
  Forall2 (fun l l' =>
      Scene.visible (Scene.node l') = v ∧ Spec.treeAttrs l' = Spec.treeAttrs l)
    labels (map (Scene.withNode (Scene.setVisible v)) labels).
Proof.
  induction labels as [|l rest IH]; constructor; [apply setVisible_frame|exact IH].
Qed.

(** C8: [changeVisible(v)] stores the flag; an owned shape and every
    label shape end up shown for true and hidden for false, with the
    attributes of every node of their trees as before; the states, the
    model and the datum are unchanged. *)
Theorem changeVisible_frame (visible : bool) (e : Element.Element) :
  let e' := Element.changeVisible visible e in
  Element.visible e' = visible
  ∧ match Element.shape e, Element.shape e' with
    | Some s, Some s' =>
        Scene.visible (Scene.node s') = visible ∧ Spec.treeAttrs s' = Spec.treeAttrs s
    | None, None => True
    | _, _ => False
    end
  ∧ match Element.labelShape e, Element.labelShape e' with
    | Some labels, Some labels' =>
        Forall2 (fun l l' =>
            Scene.visible (Scene.node l') = visible
            ∧ Spec.treeAttrs l' = Spec.treeAttrs l) labels labels'
    | None, None => True
    | _, _ => False
    end
  ∧ Element.getStates e' = Element.getStates e
  ∧ Element.getModel e' = Element.getModel e
  ∧ Element.getData e' = Element.getData e.
Proof.
  unfold Element.changeVisible, Element.superChangeVisible.
  destruct e as [vis m d ty sh lb sts off c nx tr].
  destruct visible, sh as [s|], lb as [labels|]; simpl;
    repeat split; try done;
    first [ apply (setVisible_labels true)
          | apply (setVisible_labels false)
          | by destruct s ].
Qed.

(** ** getBBox *)

Section BBoxUnion.
Import Spec.
Local Open Scope Z_scope.






End BBoxUnion.

(** ** getBBox over JavaScript numbers *)

(** *** The union over any numbers whose [min] and [max] pick an argument *)

Section Bounds.
Import Numbers BoxObject.
Context {N : Type} (a : Arith N) (num : N → Prop) (le : N → N → Prop).
Hypothesis min_picks : ∀ p q, num p → num q →
  (min a p q = p ∨ min a p q = q) ∧ le (min a p q) p ∧ le (min a p q) q.
Hypothesis max_picks : ∀ p q, num p → num q →
  (max a p q = p ∨ max a p q = q) ∧ le p (max a p q) ∧ le q (max a p q).
Hypothesis order_trans : ∀ p q r, le p q → le q r → le p r.

Lemma order_refl (p : N) : num p → le p p.
Proof.
  intros Hp. destruct (min_picks p p Hp Hp) as ([E|E] & H & _); by rewrite E in H.
Qed.

Lemma min_same (p : N) : num p → min a p p = p.
Proof. intros Hp. by destruct (min_picks p p Hp Hp) as ([E|E] & _). Qed.

Lemma max_same (p : N) : num p → max a p p = p.
Proof. intros Hp. by destruct (max_picks p p Hp Hp) as ([E|E] & _). Qed.

Lemma min_num (p q : N) : num p → num q → num (min a p q).
Proof. intros Hp Hq. by destruct (min_picks p q Hp Hq) as ([->| ->] & _). Qed.

Lemma max_num (p q : N) : num p → num q → num (max a p q).
Proof. intros Hp Hq. by destruct (max_picks p q Hp Hq) as ([->| ->] & _). Qed.

Lemma least_one (v : N) : num v → least le v [v].
Proof.
  intros Hv. split; [by apply list_elem_of_singleton|].
  repeat constructor. by apply order_refl.
Qed.

Lemma greatest_one (v : N) : num v → greatest le v [v].
Proof.
  intros Hv. split; [by apply list_elem_of_singleton|].
  repeat constructor. by apply order_refl.
Qed.

Lemma least_min (v c : N) (seen : list N) :
  num v → num c → least le v seen → least le (min a c v) (seen ++ [c]).
Proof.
  intros Hv Hc [Hin Hall]. destruct (min_picks c v Hc Hv) as (Hpick & Hlc & Hlv). split.
  - apply elem_of_app. destruct Hpick as [-> | ->]; [right|left]; [|done].
    by apply list_elem_of_singleton.
  - apply Forall_app. split.
    + eapply Forall_impl; [exact Hall|]. intros m Hm. exact (order_trans _ _ _ Hlv Hm).
    + repeat constructor. exact Hlc.
Qed.

Lemma greatest_max (v c : N) (seen : list N) :
  num v → num c → greatest le v seen → greatest le (max a c v) (seen ++ [c]).
Proof.
  intros Hv Hc [Hin Hall]. destruct (max_picks c v Hc Hv) as (Hpick & Hlc & Hlv). split.
  - apply elem_of_app. destruct Hpick as [-> | ->]; [right|left]; [|done].
    by apply list_elem_of_singleton.
  - apply Forall_app. split.
    + eapply Forall_impl; [exact Hall|]. intros m Hm. exact (order_trans _ _ _ Hm Hlv).
    + repeat constructor. exact Hlc.
Qed.

Lemma least_again (v c : N) (seen : list N) :
  c ∈ seen → least le v seen → least le v (seen ++ [c]).
Proof.
  intros Hc [Hin Hall]. split; [apply elem_of_app; by left|].
  apply Forall_app. split; [exact Hall|]. repeat constructor.
  by eapply Forall_forall in Hall.
Qed.

Lemma greatest_again (v c : N) (seen : list N) :
  c ∈ seen → greatest le v seen → greatest le v (seen ++ [c]).
Proof.
  intros Hc [Hin Hall]. split; [apply elem_of_app; by left|].
  apply Forall_app. split; [exact Hall|]. repeat constructor.
  by eapply (proj1 (Forall_forall _ _)) in Hall.
Qed.

Lemma includeLabel_same (bbox : Box N) :
  numbers num bbox → includeLabel a bbox bbox = bbox.
Proof.
  intros (H1 & H2 & H3 & H4 & H5 & H6). destruct bbox. unfold includeLabel. simpl in *.
  by rewrite !min_same, !max_same.
Qed.

Lemma includeLabel_numbers (bbox labelBBox : Box N) :
  numbers num bbox → numbers num labelBBox → numbers num (includeLabel a bbox labelBBox).
Proof.
  intros (H1 & H2 & H3 & H4 & H5 & H6) (L1 & L2 & L3 & L4 & L5 & L6).
  unfold numbers, includeLabel. simpl.
  repeat split; first [by apply min_num|by apply max_num].
Qed.

Lemma includeLabel_union (bbox labelBBox : Box N) (seen : list (Box N)) :
  numbers num bbox → numbers num labelBBox → union le bbox seen →
  union le (includeLabel a bbox labelBBox) (seen ++ [labelBBox]).
Proof.
  intros (H1 & H2 & H3 & H4 & H5 & H6) (L1 & L2 & L3 & L4 & L5 & L6)
    (U1 & U2 & U3 & U4 & U5 & U6).
  unfold union, includeLabel. rewrite !map_app. simpl.
  split; [|split; [|split; [|split; [|split]]]];
    first [by apply least_min|by apply greatest_max].
Qed.

Lemma union_again (bbox member : Box N) (seen : list (Box N)) :
  member ∈ seen → union le bbox seen → union le bbox (seen ++ [member]).
Proof.
  intros Hin (U1 & U2 & U3 & U4 & U5 & U6). unfold union. rewrite !map_app. simpl.
  split; [|split; [|split; [|split; [|split]]]];
    first [apply least_again|apply greatest_again]; try done;
    by apply (list_elem_of_fmap_2 _ _ member).
Qed.

(** The box accumulated over the labels is the union of the boxes seen. *)
Lemma labels_union (boxes : Boxes N) (owner : option nat) (labels : list Scene.Shape) :
  Forall (fun label => numbers num (boxes (boxId label))) labels →
  ∀ bbox seen,
    (∀ id, owner = Some id → boxes id ∈ seen) →
    numbers num bbox → union le bbox seen →
    let b := fold_left (fun bbox label =>
                 includeLabel a bbox (labelBox boxes owner bbox label)) labels bbox in
    numbers num b ∧ union le b (seen ++ map (fun label => boxes (boxId label)) labels).
Proof.
  induction 1 as [|l rest Hl Hrest IH]; intros bbox seen Hown Hnum Hun.
  - simpl. by rewrite app_nil_r.
  - cbn [fold_left map]. rewrite (cons_middle _ seen), app_assoc.
    assert (Hstep : numbers num (includeLabel a bbox (labelBox boxes owner bbox l))
                    ∧ union le (includeLabel a bbox (labelBox boxes owner bbox l))
                        (seen ++ [boxes (boxId l)])).
    { unfold labelBox. destruct owner as [id|].
      - destruct (Nat.eqb_spec (boxId l) id) as [E|E].
        + rewrite includeLabel_same by done. split; [done|].
          apply union_again; [|done]. rewrite E. by apply Hown.
        + split; [by apply includeLabel_numbers|by apply includeLabel_union].
      - split; [by apply includeLabel_numbers|by apply includeLabel_union]. }
    destruct Hstep as [Hn Hu]. apply IH; [|done|done].
    intros id Hid. apply elem_of_app. left. by apply Hown.
Qed.

Lemma getBBox_bounds (boxes : Boxes N) (e : Element.Element) (s : Scene.Shape)
    (labels : list Scene.Shape) :
  Element.shape e = Some s →
  Element.labelShape e = Some labels →
  let members := boxes (boxId s) :: map (fun label => boxes (boxId label)) labels in
  Forall (numbers num) members →
  let answer := getBBox a boxes e in
  union le (fst answer) members
  ∧ width (fst answer) = sub a (maxX (fst answer)) (minX (fst answer))
  ∧ height (fst answer) = sub a (maxY (fst answer)) (minY (fst answer))
  ∧ snd answer (boxId s) = fst answer
  ∧ ∀ i, i ≠ boxId s → snd answer i = boxes i.
Proof.
  intros Hs Hl members Hnum answer. subst answer members.
  unfold getBBox. rewrite Hs, Hl. cbn [fmap option_fmap option_map fst snd].
  apply Forall_cons in Hnum as [Hshape Hlabels].
  change (map ?f labels) with (f <$> labels) in Hlabels.
  apply (proj1 (Forall_fmap _ _ _)) in Hlabels.
  destruct (labels_union boxes (Some (boxId s)) labels Hlabels (boxes (boxId s))
              [boxes (boxId s)]) as [_ Hu].
  { intros id [= <-]. by apply list_elem_of_singleton. }
  { done. }
  { destruct Hshape as (H1 & H2 & H3 & H4 & H5 & H6).
    split; [|split; [|split; [|split; [|split]]]];
      first [by apply least_one|by apply greatest_one]. }
  split; [exact Hu|]. split; [reflexivity|]. split; [reflexivity|].
  unfold write. split.
  - by rewrite Nat.eqb_refl.
  - intros i Hi. by destruct (Nat.eqb_spec i (boxId s)).
Qed.

End Bounds.
(** *** The order of doubles *)

Section SpecOrder.
Import SpecFloat.

Lemma compare_cont_refl (m : positive) : Pos.compare_cont Eq m m = Eq.
Proof. apply Pos.compare_refl. Qed.

Lemma SFcompare_None (p q : spec_float) :
  SFcompare p q = None ↔ p = S754_nan ∨ q = S754_nan.
Proof.
  destruct p as [| [|] | |[|]], q as [| [|] | |[|]]; simpl;
    (split; [try discriminate; try (intros _; by (left + right));
             try (by repeat case_match)
            | try (intros [?|?]; discriminate); done]).
Qed.

Lemma SFleb_refl (p : spec_float) : p ≠ S754_nan → SFleb p p = true.
Proof.
  unfold SFleb. destruct p as [| [|] | |[|] m e]; simpl; try done.
  - by rewrite Z.compare_refl, compare_cont_refl.
  - by rewrite Z.compare_refl, compare_cont_refl.
Qed.

Lemma SFltb_SFleb (p q : spec_float) : SFltb p q = true → SFleb p q = true.
Proof. unfold SFltb, SFleb. by destruct (SFcompare p q) as [[| |]|]. Qed.

Lemma SFcompare_swap (p q : spec_float) :
  SFcompare q p = CompOpp <$> SFcompare p q.
Proof.
  destruct p as [| [|] | |[|] m e], q as [| [|] | |[|] m' e']; simpl; try done;
    try (by repeat case_match).
  - rewrite (Z.compare_antisym e e').
    destruct (e ?= e')%Z; simpl; try done.
    change (Pos.compare_cont Eq m' m) with (Pos.compare m' m).
    change (Pos.compare_cont Eq m m') with (Pos.compare m m').
    by rewrite (Pos.compare_antisym m m').
  - rewrite (Z.compare_antisym e e').
    destruct (e ?= e')%Z; simpl; try done.
    change (Pos.compare_cont Eq m' m) with (Pos.compare m' m).
    change (Pos.compare_cont Eq m m') with (Pos.compare m m').
    by rewrite (Pos.compare_antisym m m').
Qed.

Lemma SFleb_total (p q : spec_float) :
  p ≠ S754_nan → q ≠ S754_nan → SFltb p q = false → SFleb q p = true.
Proof.
  intros Hp Hq. unfold SFltb, SFleb. rewrite (SFcompare_swap p q).
  destruct (SFcompare p q) as [[| |]|] eqn:E; simpl; try done.
  apply SFcompare_None in E as [?|?]; done.
Qed.

Lemma SFleb_trans (p q r : spec_float) :
  SFleb p q = true → SFleb q r = true → SFleb p r = true.
Proof.
  unfold SFleb.
  destruct p as [| [|] | |[|] m1 e1], q as [| [|] | |[|] m2 e2],
    r as [| [|] | |[|] m3 e3]; simpl; try done;
    try (by repeat case_match);
    change (Pos.compare_cont Eq) with Pos.compare;
    repeat match goal with
    | |- context [(?a ?= ?b)%Z] => destruct (Z.compare_spec a b)
    | |- context [(?a ?= ?b)%positive] => destruct (Pos.compare_spec a b)
    end; simpl; try done; try lia.
Qed.

End SpecOrder.

Section DoubleOrder.
Import Numbers.

Lemma isNumber_spec (a : PrimFloat.float) :
  isNumber a → FloatOps.Prim2SF a ≠ SpecFloat.S754_nan.
Proof.
  unfold isNumber, PrimFloat.is_nan. rewrite negb_false_iff, FloatAxioms.eqb_spec.
  unfold SpecFloat.SFeqb. intros H E. by rewrite E in H.
Qed.

Lemma double_le_refl (a : PrimFloat.float) : isNumber a → le a a.
Proof.
  intros Ha. unfold le. rewrite FloatAxioms.leb_spec.
  by apply SFleb_refl, isNumber_spec.
Qed.

Lemma double_le_trans (a b c : PrimFloat.float) : le a b → le b c → le a c.
Proof. unfold le. rewrite !FloatAxioms.leb_spec. apply SFleb_trans. Qed.

Lemma double_lt_le (a b : PrimFloat.float) : PrimFloat.ltb a b = true → le a b.
Proof.
  unfold le. rewrite FloatAxioms.ltb_spec, FloatAxioms.leb_spec. apply SFltb_SFleb.
Qed.

Lemma double_not_lt_le (a b : PrimFloat.float) :
  isNumber a → isNumber b → PrimFloat.ltb a b = false → le b a.
Proof.
  intros Ha Hb. unfold le. rewrite FloatAxioms.ltb_spec, FloatAxioms.leb_spec.
  apply SFleb_total; by apply isNumber_spec.
Qed.

Lemma mathMin_picks (a b : PrimFloat.float) :
  isNumber a → isNumber b →
  (mathMin a b = a ∨ mathMin a b = b) ∧ le (mathMin a b) a ∧ le (mathMin a b) b.
Proof.
  intros Ha Hb. unfold mathMin. rewrite Ha, Hb. simpl.
  destruct (PrimFloat.ltb a b) eqn:Hab.
  { split; [by left|]. split; [by apply double_le_refl|by apply double_lt_le]. }
  destruct (PrimFloat.ltb b a) eqn:Hba.
  { split; [by right|]. split; [by apply double_lt_le|by apply double_le_refl]. }
  destruct (PrimFloat.get_sign a).
  - split; [by left|]. split; [by apply double_le_refl|by apply double_not_lt_le].
  - split; [by right|]. split; [by apply double_not_lt_le|by apply double_le_refl].
Qed.

Lemma mathMax_picks (a b : PrimFloat.float) :
  isNumber a → isNumber b →
  (mathMax a b = a ∨ mathMax a b = b) ∧ le a (mathMax a b) ∧ le b (mathMax a b).
Proof.
  intros Ha Hb. unfold mathMax. rewrite Ha, Hb. simpl.
  destruct (PrimFloat.ltb a b) eqn:Hab.
  { split; [by right|]. split; [by apply double_lt_le|by apply double_le_refl]. }
  destruct (PrimFloat.ltb b a) eqn:Hba.
  { split; [by left|]. split; [by apply double_le_refl|by apply double_lt_le]. }
  destruct (PrimFloat.get_sign a).
  - split; [by right|]. split; [by apply double_not_lt_le|by apply double_le_refl].
  - split; [by left|]. split; [by apply double_le_refl|by apply double_not_lt_le].
Qed.

End DoubleOrder.



(** C7, as stated, fails in the numbers of JavaScript: with a shape that
    spans -1 to 2^53 and two labels inside that span, the width returned is
    2^53, not maxX - minX = 2^53 + 1, which no double is; and with a label
    whose horizontal bounds are NaN the minX returned is NaN, which is not
    below the minX of the shape. *)
Lemma getBBox_rounds_and_spreads_nan :
  let b := fst (BoxObject.getBBox Numbers.double BoxSample.wide Sample.labelled) in
  let c := fst (BoxObject.getBBox Numbers.double BoxSample.unplaced Sample.labelled) in
  Element.shape Sample.labelled = Some Sample.dot
  ∧ Element.labelShape Sample.labelled = Some Sample.twoLabels
  ∧ Numbers.valueOf (BoxObject.minX b) = Some (-1)%Z
  ∧ Numbers.valueOf (BoxObject.maxX b) = Some 9007199254740992%Z
  ∧ Numbers.valueOf (BoxObject.width b) = Some 9007199254740992%Z
  ∧ (9007199254740992 ≠ 9007199254740992 - -1)%Z
  ∧ Numbers.isNumber (BoxObject.minX (BoxSample.unplaced 3))
  ∧ ¬ Numbers.isNumber (BoxObject.minX c)
  ∧ ¬ Numbers.le (BoxObject.minX c) (BoxObject.minX (BoxSample.unplaced 3)).
Proof.
  intros b c.
  repeat (match goal with |- _ ∧ _ => split end);
    first [vm_compute; reflexivity | lia | vm_compute; discriminate].
Qed.

(** C7, amended: with a shape and a list of labels whose canvas boxes hold
    numbers (no NaN among the six bounds), every bound of the box
    [getBBox()] returns is attained by one member box (the shape's or a
    label's) and bounds all of them in the order of doubles: x, y, minX and
    minY are the least, maxX and maxY the greatest of the members' values;
    width and height are the differences of the returned bounds as doubles,
    rounded as [-] rounds; and the box returned is the box object of the
    shape, which holds the union afterwards, the box objects of all other
    shapes being as before. *)
Theorem getBBox_union_of_numbers
    (boxes : BoxObject.Boxes PrimFloat.float) (e : Element.Element) (s : Scene.Shape)
    (labels : list Scene.Shape) :
  Element.shape e = Some s →
  Element.labelShape e = Some labels →
  let members :=
    boxes (BoxObject.boxId s) :: map (fun label => boxes (BoxObject.boxId label)) labels in
  Forall (BoxObject.numbers Numbers.isNumber) members →
  let answer := BoxObject.getBBox Numbers.double boxes e in
  let b := fst answer in
  BoxObject.union Numbers.le b members
  ∧ BoxObject.width b = PrimFloat.sub (BoxObject.maxX b) (BoxObject.minX b)
  ∧ BoxObject.height b = PrimFloat.sub (BoxObject.maxY b) (BoxObject.minY b)
  ∧ snd answer (BoxObject.boxId s) = b
  ∧ ∀ i, i ≠ BoxObject.boxId s → snd answer i = boxes i.
Proof.
  intros Hs Hl members Hnum answer b.
  exact (getBBox_bounds Numbers.double Numbers.isNumber Numbers.le
           mathMin_picks mathMax_picks double_le_trans boxes e s labels Hs Hl Hnum).
Qed.

Lemma getBBox_union_of_numbers_witness :
  let members := [BoxSample.placed 3; BoxSample.placed 5; BoxSample.placed 1] in
  let answer := BoxObject.getBBox Numbers.double BoxSample.placed Sample.labelled in
  Forall (BoxObject.numbers Numbers.isNumber) members
  ∧ BoxObject.union Numbers.le (fst answer) members
  ∧ BoxObject.width (fst answer)
    = PrimFloat.sub (BoxObject.maxX (fst answer)) (BoxObject.minX (fst answer))
  ∧ snd answer 3 = fst answer.
Proof.
  intros members answer.
  assert (Hnum : Forall (BoxObject.numbers Numbers.isNumber) members).
  { repeat constructor; vm_compute; reflexivity. }
  split; [exact Hnum|].
  destruct (getBBox_union_of_numbers BoxSample.placed Sample.labelled Sample.dot
              Sample.twoLabels eq_refl eq_refl Hnum) as (Hu & Hw & _ & Hb & _).
  split; [exact Hu|]. split; [exact Hw|exact Hb].
Defined.

(** In exact arithmetic, on box objects handed out for the first time and
    labels other than the shape, the box returned is [Element.getBBox]. *)
Lemma getBBox_exact (env : Element.Env) (boxes : BoxObject.Boxes Z) (e : Element.Element) :
  (∀ s, boxes (BoxObject.boxId s) = BoxObject.ofExact (Element.getCanvasBBox env s)) →
  (∀ s labels, Element.shape e = Some s → Element.labelShape e = Some labels →
     Forall (fun label => BoxObject.boxId label ≠ BoxObject.boxId s) labels) →
  fst (BoxObject.getBBox Numbers.exact boxes e) = BoxObject.ofExact (Element.getBBox env e).
Proof.
  intros Hbox Hother. unfold BoxObject.getBBox, Element.getBBox. cbn [fst].
  assert (Hfold : ∀ labels owner,
    match owner with
    | Some id => Forall (fun label => BoxObject.boxId label ≠ id) labels
    | None => True
    end →
    ∀ bbox,
      fold_left (fun bbox label =>
          BoxObject.includeLabel Numbers.exact bbox
            (BoxObject.labelBox boxes owner bbox label)) labels (BoxObject.ofExact bbox)
      = BoxObject.ofExact
          (fold_left (fun bbox label =>
             Element.includeLabel bbox (Element.getCanvasBBox env label)) labels bbox)).
  { induction labels as [|l rest IH]; intros owner Hown bbox; [done|].
    cbn [fold_left]. rewrite <- (IH owner).
    - f_equal. unfold BoxObject.labelBox.
      destruct owner as [id|].
      + apply Forall_cons in Hown as [Hne _].
        destruct (Nat.eqb_spec (BoxObject.boxId l) id) as [E|_]; [done|].
        by rewrite Hbox.
      + by rewrite Hbox.
    - destruct owner as [id|]; [|done]. by apply Forall_cons in Hown as [_ ?]. }
  destruct (Element.shape e) as [s|] eqn:Hs; cbn [fmap option_fmap option_map].
  - destruct (Element.labelShape e) as [labels|] eqn:Hl.
    + rewrite Hbox, (Hfold labels (Some (BoxObject.boxId s)) (Hother s labels eq_refl eq_refl)).
      reflexivity.
    + by rewrite Hbox.
  - destruct (Element.labelShape e) as [labels|] eqn:Hl.
    + change (BoxObject.literal Numbers.exact)
        with (BoxObject.ofExact (BBox.mk 0 0 0 0 0 0 0 0)).
      by rewrite (Hfold labels None I).
    + reflexivity.
Qed.

(** What the write to the box object of the shape does to a later call:
    asked again when the labels are gone, [getBBox] starts from the union
    it left in that object and returns it once more, while on box objects
    nobody wrote to the same element gets the bounds of its circle. *)
Lemma getBBox_starts_from_kept_union :
  let first := BoxObject.getBBox Numbers.double BoxSample.placed Sample.labelled in
  let alone := Element.setLabelShape (Some []) Sample.labelled in
  fst (BoxObject.getBBox Numbers.double (snd first) alone) = fst first
  ∧ BoxObject.minX (fst first) = BoxObject.minX (BoxSample.placed 1)
  ∧ BoxObject.minX (fst (BoxObject.getBBox Numbers.double BoxSample.placed alone))
    = BoxObject.minX (BoxSample.placed 3).
Proof.
  intros first alone.
  repeat (match goal with |- _ ∧ _ => split end); vm_compute; reflexivity.
Qed.

(** The boxes of [Sample.boxOf] are such box objects, and the labels of
    the labelled element are other shapes than its circle. *)
Lemma getBBox_exact_labelled :
  fst (BoxObject.getBBox Numbers.exact BoxSample.exactly Sample.labelled)
  = BoxObject.ofExact (Element.getBBox Sample.still Sample.labelled).
Proof.
  apply getBBox_exact.
  - intros s. unfold BoxSample.exactly, BoxObject.boxId. by destruct s.
  - intros s labels [= <-] [= <-]. repeat constructor; discriminate.
Qed.

(** ** clearStates *)

Lemma clearStates_returns_empty (env : Element.Env) (e e' : Element.Element) :
  Element.clearStates env e = Element.Return e' → Element.getStates e' = [].
Proof.
  unfold Element.clearStates.
  destruct (Element.eachState env 0 (length (Element.states e)) e) as [e1|e1];
    simpl; [|discriminate].
  by intros [= <-].
Qed.

(** With two active states the loop of [clearStates] passes only the first
    to [setState]: once that one is spliced out, position 1 of the shared
    array is past its end. *)
Lemma clearStates_two (env : Element.Env) (e : Element.Element) (a b : string) :
  Element.states e = [a; b] →
  Element.clearStates env e
  = Element.andThen (Element.setState env a false e)
      (fun e' => Element.Return (Element.setStates [] e')).
Proof.
  intros Hst. unfold Element.clearStates. rewrite Hst.
  cbn [length Element.eachState]. rewrite Hst. cbn [lookup list_lookup].
  pose proof (setState_states env a false e) as Hafter.
  rewrite Hst in Hafter. cbn [Element.indexOf] in Hafter.
  rewrite String.eqb_refl in Hafter. cbn [delete list_delete] in Hafter.
  destruct (Element.setState env a false e) as [e1|e1]; simpl in *; [|done].
  by rewrite Hafter.
Qed.

(** C2 at the failing input: a point drawn blue, with active (fill red) and
    selected (stroke black) enabled in that order. [clearStates()] returns
    with the states empty, but it has notified only the disabling of active
    and the shape keeps the black stroke of selected; disabling the two
    states one by one notifies both and leaves the attributes of a fresh
    draw. *)
Theorem clearStates_skips_second_state :
  let e := Sample.bothOn in
  let cleared := Element.clearStates Sample.still e in
  let oneByOne :=
    Element.andThen (Element.setState Sample.still "active" false e)
      (Element.setState Sample.still "selected" false) in
  Element.getStates e = ["active"; "selected"]
  ∧ Element.returned cleared = true
  ∧ Element.getStates (Element.final cleared) = []
  ∧ Spec.stateChanges (Element.trace (Element.final cleared))
    = Spec.stateChanges (Element.trace e) ++ [("active", false)]
  ∧ Spec.shapeAttrs (Element.final cleared)
    = Some {[ "fill" := VStr "blue"; "stroke" := VStr "black" ]}
  ∧ Element.returned oneByOne = true
  ∧ Spec.stateChanges (Element.trace (Element.final oneByOne))
    = Spec.stateChanges (Element.trace e) ++ [("active", false); ("selected", false)]
  ∧ Spec.shapeAttrs (Element.final oneByOne) = Some {[ "fill" := VStr "blue" ]}
  ∧ Spec.shapeAttrs Sample.drawn = Some {[ "fill" := VStr "blue" ]}.
Proof. repeat split; vm_compute; reflexivity. Qed.

(** * Further properties of the element *)

(** ** What a reconciliation pass does to the live tree *)

Section SyncFacts.
Import Element.

Variable env : Env.
Variable this : Element.
Variable state : string.
Variable animateCfg : option Obj.

(** Without a target, neither branch gets past its first read. *)
Lemma syncShapeStyle_undefined_target (sourceShape : Scene.Shape) (index : nat) :
  completed (syncShapeStyle env this sourceShape None state animateCfg index) = false.
Proof. destruct sourceShape; reflexivity. Qed.

(** The children loop relates every child to what it leaves of it, for a
    reflexive relation that each recursive call establishes. *)
Lemma syncChildren_sources (R : Scene.Shape → Scene.Shape → Prop)
    (sync : Scene.Shape → option Scene.Shape → nat → SyncResult)
    (children : list Scene.Shape) :
  (∀ c, R c c) →
  Forall (fun c => ∀ t i, R c (source (sync c t i))) children →
  ∀ newChildren i,
    Forall2 R children (sources (syncChildren sync children newChildren i)).
Proof.
  intros Hrefl H. induction H as [|c rest Hc _ IH]; intros newChildren i.
  - constructor.
  - cbn [syncChildren]. destruct newChildren as [ncs|]; cbn [sources].
    + destruct (completed (sync c (ncs !! i) i)); cbn [sources].
      * constructor; [apply Hc|apply IH].
      * constructor; [apply Hc|]. by apply Forall_Forall2_diag, Forall_true.
    + by apply Forall_Forall2_diag, Forall_true.
Qed.

(** Every call a pass makes satisfies [P] when every call of the leaf
    branch does. *)
Lemma syncChildren_effects (P : Effect → Prop)
    (sync : Scene.Shape → option Scene.Shape → nat → SyncResult)
    (children : list Scene.Shape) :
  Forall (fun c => ∀ t i, Forall P (effects (sync c t i))) children →
  ∀ newChildren i,
    Forall P (childEffects (syncChildren sync children newChildren i)).
Proof.
  induction 1 as [|c rest Hc _ IH]; intros newChildren i; [constructor|].
  cbn [syncChildren]. destruct newChildren as [ncs|]; cbn [childEffects]; [|constructor].
  destruct (completed (sync c (ncs !! i) i)); cbn [childEffects]; [|apply Hc].
  apply Forall_app. split; [apply Hc|apply IH].
Qed.

Lemma syncShapeStyle_effects (P : Effect → Prop) :
  (∀ n t index, Forall P (effects (syncLeaf env this (Scene.Leaf n) t state animateCfg index))) →
  ∀ sourceShape targetShape index,
    Forall P (effects (syncShapeStyle env this sourceShape targetShape state animateCfg index)).
Proof.
  intros Hleaf sourceShape.
  induction sourceShape as [n|n children IH] using Shape_tree_ind; intros t index.
  - apply Hleaf.
  - cbn [syncShapeStyle]. destruct t as [t|]; cbn [effects]; [|constructor].
    apply syncChildren_effects.
    eapply Forall_impl; [exact IH|]. intros c Hc t' i. apply Hc.
Qed.

Lemma syncShapeStyle_sources (R : Scene.Shape → Scene.Shape → Prop) :
  (∀ c, R c c) →
  (∀ n t index, R (Scene.Leaf n)
     (source (syncLeaf env this (Scene.Leaf n) t state animateCfg index))) →
  (∀ n children children', Forall2 R children children' →
     R (Scene.Group n children) (Scene.Group n children')) →
  ∀ sourceShape targetShape index,
    R sourceShape
      (source (syncShapeStyle env this sourceShape targetShape state animateCfg index)).
Proof.
  intros Hrefl Hleaf Hgroup sourceShape.
  induction sourceShape as [n|n children IH] using Shape_tree_ind; intros t index.
  - apply Hleaf.
  - cbn [syncShapeStyle]. destruct t as [t|]; cbn [source]; [|apply Hrefl].
    apply Hgroup, syncChildren_sources; [exact Hrefl|].
    eapply Forall_impl; [exact IH|]. intros c Hc t' i. apply Hc.
Qed.

(** A pass changes nothing of the live tree but attributes of leaves,
    whether it runs to its end or not. *)
Lemma syncShapeStyle_skeleton (sourceShape : Scene.Shape)
    (targetShape : option Scene.Shape) (index : nat) :
  View.skeleton
    (source (syncShapeStyle env this sourceShape targetShape state animateCfg index))
  = View.skeleton sourceShape.
Proof.
  apply (syncShapeStyle_sources (fun s s' => View.skeleton s' = View.skeleton s)).
  - done.
  - intros n t i. unfold syncLeaf. destruct t as [t|]; [|done].
    destruct animateCfg; [done|].
    destruct (isNull _); [done|]. by destruct (Animate.switchedOn _).
  - intros n children children' H. cbn [View.skeleton]. f_equal.
    induction H as [|c c' cs cs' Hc _ IH]; [done|]. cbn [map]. by rewrite Hc, IH.
Qed.

End SyncFacts.

(** ** What the steps of setState and update leave alone *)

Section StepFrames.
Import Element View.

Variable env : Env.

Lemma sameData_refl e : sameData e e.
Proof. by repeat split. Qed.

Lemma sameData_trans e1 e2 e3 : sameData e1 e2 → sameData e2 e3 → sameData e1 e3.
Proof.
  intros (?&?&?&?&?) (?&?&?&?&?). repeat split; congruence.
Qed.

Lemma sameSkeleton_trans e1 e2 e3 :
  sameSkeleton e1 e2 → sameSkeleton e2 e3 → sameSkeleton e1 e3.
Proof. unfold sameSkeleton. congruence. Qed.

Lemma addedCalls_refl P e : addedCalls P e e.
Proof. exists []. by rewrite app_nil_r. Qed.

Lemma addedCalls_trans P e1 e2 e3 :
  addedCalls P e1 e2 → addedCalls P e2 e3 → addedCalls P e1 e3.
Proof.
  intros (a & Ha & HPa) (b & Hb & HPb). exists (a ++ b).
  rewrite Hb, Ha, app_assoc. split; [done|]. by apply Forall_app.
Qed.

Lemma addedCalls_weaken (P Q : Effect → Prop) e e' :
  (∀ ef, P ef → Q ef) → addedCalls P e e' → addedCalls Q e e'.
Proof.
  intros HPQ (a & Ha & HPa). exists a. split; [done|].
  eapply Forall_impl; [exact HPa|exact HPQ].
Qed.

(** One pass over the element's shape. *)
Lemma syncOnce_step (P : Effect → Prop) state e off :
  (∀ this n t index,
     Forall P (effects (syncLeaf env this (Scene.Leaf n) t state None index))) →
  let e' := (syncOnce env state e off).1.1 in
  sameData e e' ∧ sameSkeleton e e' ∧ addedCalls P e e'
  ∧ states e' = states e ∧ container e' = container e
  ∧ offscreenGroup e' = offscreenGroup e ∧ nextId e' = nextId e.
Proof.
  intros Hleaf e'. subst e'. unfold syncOnce.
  destruct (shape e) as [s|] eqn:Hs; cbn [fst].
  - split; [by repeat split|]. split; [|split; [|by repeat split]].
    + unfold sameSkeleton. cbn. rewrite Hs. cbn. f_equal. apply syncShapeStyle_skeleton.
    + eexists. split; [reflexivity|]. by apply syncShapeStyle_effects.
  - split; [by repeat split|]. split; [done|]. split; [apply addedCalls_refl|done].
Qed.

Lemma syncStates_step (P : Effect → Prop) sts e off :
  (∀ state this n t index,
     Forall P (effects (syncLeaf env this (Scene.Leaf n) t state None index))) →
  let e' := (syncStates env sts e off).1.1 in
  sameData e e' ∧ sameSkeleton e e' ∧ addedCalls P e e'
  ∧ states e' = states e ∧ container e' = container e
  ∧ offscreenGroup e' = offscreenGroup e ∧ nextId e' = nextId e.
Proof.
  intros Hleaf. revert e off. induction sts as [|st rest IH]; intros e off.
  - cbn. split; [by repeat split|]. split; [done|]. split; [apply addedCalls_refl|done].
  - cbn [syncStates].
    pose proof (syncOnce_step P st e off (Hleaf st)) as H1.
    destruct (syncOnce env st e off) as [[e1 off1] ok]. cbn [fst] in H1.
    destruct ok; [|exact H1].
    specialize (IH e1 off1). cbn zeta in *.
    destruct H1 as (A1 & B1 & C1 & D1 & E1 & F1 & G1).
    destruct IH as (A2 & B2 & C2 & D2 & E2 & F2 & G2).
    split; [by eapply sameData_trans|]. split; [by eapply sameSkeleton_trans|].
    split; [by eapply addedCalls_trans|]. repeat split; congruence.
Qed.


(** The target keeps its root through a pass. *)
Lemma syncShapeStyle_rootId this sourceShape targetShape state animateCfg index :
  rootId (target (syncShapeStyle env this sourceShape targetShape state animateCfg index))
  = rootId targetShape.
Proof.
  destruct sourceShape as [n|n children]; cbn [syncShapeStyle].
  - unfold syncLeaf. destruct targetShape as [t|]; [|done].
    assert (Hattr : ∀ v, Scene.nid (Scene.node (Scene.attr v t)) = Scene.nid (Scene.node t)).
    { intros v. destruct v; try done. by destruct t. }
    destruct (negb (String.eqb state "")); destruct animateCfg as [c|]; cbn;
      rewrite ?Hattr; try done;
      repeat (match goal with
              | |- context [isNull ?v] => destruct (isNull v)
              | |- context [Animate.switchedOn ?a] => destruct (Animate.switchedOn a)
              end; cbn);
      by rewrite ?Hattr.
  - destruct targetShape as [t|]; [|done]. cbn.
    destruct t as [m|m ts]; [done|]. by destruct (targets _).
Qed.

Lemma syncOnce_rootId state e off :
  rootId (syncOnce env state e off).1.2 = rootId off.
Proof.
  unfold syncOnce. destruct (shape e); [|done]. apply syncShapeStyle_rootId.
Qed.

Lemma syncStates_rootId sts e off :
  rootId (syncStates env sts e off).1.2 = rootId off.
Proof.
  revert e off. induction sts as [|st rest IH]; intros e off; [done|].
  cbn [syncStates]. pose proof (syncOnce_rootId st e off) as H1.
  destruct (syncOnce env st e off) as [[e1 off1] ok]. cbn in H1.
  destruct ok; [|done]. by rewrite IH.
Qed.

(** The passes of [setState]: one per active state, or one without state. *)
Lemma passes_step (P : Effect → Prop) (l : list string) e off :
  (∀ state this n t index,
     Forall P (effects (syncLeaf env this (Scene.Leaf n) t state None index))) →
  let r := match l with
           | [] => syncOnce env "" e off
           | _ :: _ => syncStates env l e off
           end in
  (sameData e r.1.1 ∧ sameSkeleton e r.1.1 ∧ addedCalls P e r.1.1
   ∧ states r.1.1 = states e ∧ container r.1.1 = container e
   ∧ offscreenGroup r.1.1 = offscreenGroup e ∧ nextId r.1.1 = nextId e)
  ∧ rootId r.1.2 = rootId off.
Proof.
  intros Hleaf. destruct l as [|st rest]; cbn zeta.
  - split; [by apply syncOnce_step|apply syncOnce_rootId].
  - split; [by apply syncStates_step|apply syncStates_rootId].
Qed.

Lemma getOffscreenGroup_step e :
  let e' := getOffscreenGroup e in
  sameData e e' ∧ shape e' = shape e ∧ states e' = states e
  ∧ container e' = container e ∧ trace e' = trace e
  ∧ scratch e' = scratch e ∧ nextId e' = nextId e ∧ is_Some (offscreenGroup e').
Proof.
  unfold getOffscreenGroup, scratch. destruct (offscreenGroup e) eqn:H; cbn.
  - rewrite H. by repeat split.
  - by repeat split.
Qed.

Lemma drawOn_step offscreen st m e :
  let r := drawOn env offscreen st m e in
  sameData e r.2 ∧ shape r.2 = shape e ∧ states r.2 = states e
  ∧ trace r.2 = trace e ++ [DrawShape offscreen st m]
  ∧ (offscreen = true →
     container r.2 = container e
     ∧ match r.1 with
       | Some s => scratch r.2 = scratch e ++ [nextId e]
                   ∧ Scene.nid (Scene.node s) = nextId e
       | None => scratch r.2 = scratch e
       end)
  ∧ (is_Some r.1 ↔ is_Some (drawShapeOf env st m)).
Proof.
  unfold drawOn, scratch. destruct (drawShapeOf env st m) as [s|]; cbn.
  - destruct offscreen; cbn; repeat split; try done; try (by eexists); by destruct s.
  - repeat split; try done; by intros [? ?].
Qed.

Lemma removeChild_last_length (id : nat) (l : list nat) :
  length (Scene.removeChild id (l ++ [id])) = length l.
Proof.
  induction l as [|c rest IH]; cbn [app Scene.removeChild].
  - by rewrite Nat.eqb_refl.
  - destruct (Nat.eqb c id); cbn; [by rewrite length_app, Nat.add_1_r|by rewrite IH].
Qed.


(** The second half of [setState]. *)
Lemma restyle_step (P : Effect → Prop) stateName stateStatus e :
  (∀ off st m, P (DrawShape off st m)) →
  (∀ state this n t index,
     Forall P (effects (syncLeaf env this (Scene.Leaf n) t state None index))) →
  let o := restyle env stateName stateStatus e in
  sameData e (final o) ∧ sameSkeleton e (final o)
  ∧ states (final o) = states e ∧ container (final o) = container e
  ∧ if returned o
    then (∃ e2, addedCalls P e e2
                ∧ trace (final o)
                  = trace e2 ++ [Emit "statechange" stateName stateStatus;
                                 PropagationDelegate "statechange" stateName stateStatus])
         ∧ length (scratch (final o)) = length (scratch e)
    else addedCalls P e (final o).
Proof.
  intros Hdraw Hleaf o. subst o. unfold restyle.
  destruct (getOffscreenGroup_step e) as (D0 & S0 & St0 & C0 & T0 & Sc0 & N0 & _).
  set (e0 := getOffscreenGroup e) in *.
  pose proof (drawOn_step true (shapeType e0) (model e0) e0) as H1.
  destruct (drawOn env true (shapeType e0) (model e0) e0) as [off e1].
  cbn [fst snd] in H1. destruct H1 as (D1 & S1 & St1 & T1 & H1 & _).
  destruct (H1 eq_refl) as [C1 Sc1]. clear H1.
  pose proof (passes_step P (states e1) e1 off Hleaf) as H2.
  destruct (match states e1 with [] => _ | _ :: _ => _ end) as [[e2 off2] ok].
  cbn [fst snd] in H2. destruct H2 as [(D2 & K2 & A2 & St2 & C2 & O2 & N2) R2].
  assert (Dall : sameData e e2)
    by (eapply sameData_trans; [|exact D2]; eapply sameData_trans; [exact D0|exact D1]).
  assert (Kall : sameSkeleton e e2)
    by (unfold sameSkeleton in *; rewrite K2, S1, S0; done).
  assert (Aall : addedCalls P e e2).
  { eapply addedCalls_trans; [|exact A2]. exists [DrawShape true (shapeType e0) (model e0)].
    rewrite T1, T0. split; [done|]. by repeat constructor. }
  assert (Stall : states e2 = states e) by congruence.
  assert (Call : container e2 = container e) by congruence.
  destruct ok; [destruct off2 as [o2|]|]; cbn [returned final].
  2, 3: exact (conj Dall (conj Kall (conj Stall (conj Call Aall)))).
  split; [exact Dall|]. split; [exact Kall|]. split; [exact Stall|]. split; [exact Call|].
  split; [exists e2; by split|].
  destruct off as [o1|]; [|done]. destruct Sc1 as [Sc1 Hid].
  injection R2 as R2. unfold scratch in *. cbn. rewrite O2, Sc1, R2, Hid.
  rewrite removeChild_last_length. by rewrite Sc0.
Qed.

Lemma restack_step move e :
  let o := restack move e in
  sameData e (final o) ∧ shape (final o) = shape e ∧ states (final o) = states e
  ∧ trace (final o) = trace e ∧ scratch (final o) = scratch e
  ∧ match shape e with
    | Some s => returned o = true
                ∧ container (final o) = move (Scene.nid (Scene.node s)) (container e)
    | None => returned o = false ∧ container (final o) = container e
    end.
Proof.
  unfold restack. destruct e as [vis m d ty [s|] lb sts off c nx tr]; cbn;
    repeat split; reflexivity.
Qed.


(** [setState] after the membership change: the restacking, then the
    restyling. *)
Lemma toggled_step (P : Effect → Prop) stateName stateStatus move e :
  (∀ off st m, P (DrawShape off st m)) →
  (∀ state this n t index,
     Forall P (effects (syncLeaf env this (Scene.Leaf n) t state None index))) →
  let o := andThen (if raises stateName then restack move e else Return e)
             (restyle env stateName stateStatus) in
  sameData e (final o) ∧ sameSkeleton e (final o)
  ∧ states (final o) = states e
  ∧ container (final o)
    = (if raises stateName
       then match shape e with
            | Some s => move (Scene.nid (Scene.node s)) (container e)
            | None => container e
            end
       else container e)
  ∧ if returned o
    then (∃ e2, addedCalls P e e2
                ∧ trace (final o)
                  = trace e2 ++ [Emit "statechange" stateName stateStatus;
                                 PropagationDelegate "statechange" stateName stateStatus])
         ∧ length (scratch (final o)) = length (scratch e)
    else addedCalls P e (final o).
Proof.
  intros Hdraw Hleaf o. subst o. destruct (raises stateName).
  - pose proof (restack_step move e) as (D & S & St & T & Sc & H).
    destruct (restack move e) as [e1|e1]; cbn [final returned andThen] in *.
    + pose proof (restyle_step P stateName stateStatus e1 Hdraw Hleaf)
        as (D1 & K1 & St1 & C1 & H1). cbn zeta in *.
      assert (Hc : container e1
                   = match shape e with
                     | Some s => move (Scene.nid (Scene.node s)) (container e)
                     | None => container e
                     end) by (destruct (shape e); by destruct H).
      split; [by eapply sameData_trans|].
      split; [unfold sameSkeleton in *; by rewrite K1, S|].
      split; [congruence|]. split; [congruence|].
      destruct (returned (restyle env stateName stateStatus e1)).
      * destruct H1 as [(e2 & (a & Ha & HPa) & Ht) Hl]. split; [|congruence].
        exists e2. split; [|done]. exists a. by rewrite Ha, T.
      * destruct H1 as (a & Ha & HPa). exists a. by rewrite Ha, T.
    + split; [done|]. split; [unfold sameSkeleton; by rewrite S|]. split; [done|].
      split; [destruct (shape e); by destruct H|]. exists []. rewrite T, app_nil_r. by split.
  - cbn [andThen]. pose proof (restyle_step P stateName stateStatus e Hdraw Hleaf) as H.
    exact H.
Qed.

(** The whole of [setState]: a redundant call returns the element; any
    other call changes the membership, restacks for active and selected,
    restyles and, if nothing throws, notifies. *)
Lemma setState_step (P : Effect → Prop) stateName stateStatus e :
  (∀ off st m, P (DrawShape off st m)) →
  (∀ state this n t index,
     Forall P (effects (syncLeaf env this (Scene.Leaf n) t state None index))) →
  let o := setState env stateName stateStatus e in
  if xorb (hasState stateName e) stateStatus then
    sameData e (final o) ∧ sameSkeleton e (final o)
    ∧ container (final o)
      = (if raises stateName
         then match shape e with
              | Some s =>
                  (if stateStatus then Scene.toFront else Scene.toBack)
                    (Scene.nid (Scene.node s)) (container e)
              | None => container e
              end
         else container e)
    ∧ if returned o
      then (∃ e2, addedCalls P e e2
                  ∧ trace (final o)
                    = trace e2 ++ [Emit "statechange" stateName stateStatus;
                                   PropagationDelegate "statechange" stateName stateStatus])
           ∧ length (scratch (final o)) = length (scratch e)
      else addedCalls P e (final o)
  else o = Return e.
Proof.
  intros Hdraw Hleaf o. subst o. unfold setState.
  destruct stateStatus, (hasState stateName e) eqn:Hh; cbn [xorb].
  - apply hasState_true in Hh as [i ->]. done.
  - rewrite (hasState_false _ _ Hh).
    pose proof (toggled_step P stateName true Scene.toFront
                  (setStates (states e ++ [stateName]) e) Hdraw Hleaf)
      as (D & K & _ & C & H).
    split; [exact D|]. split; [exact K|]. split; [exact C|exact H].
  - apply hasState_true in Hh as [i ->].
    pose proof (toggled_step P stateName false Scene.toBack
                  (setStates (delete i (states e)) e) Hdraw Hleaf)
      as (D & K & _ & C & H).
    split; [exact D|]. split; [exact K|]. split; [exact C|exact H].
  - by rewrite (hasState_false _ _ Hh).
Qed.

End StepFrames.

(** ** Kinds of calls a pass can make *)

Lemma syncLeaf_no_notification env this n t state animateCfg index :
  Forall (fun ef => View.isNotification ef = false)
    (Element.effects (Element.syncLeaf env this (Scene.Leaf n) t state animateCfg index)).
Proof.
  unfold Element.syncLeaf.
  destruct (negb (String.eqb state "")), t as [t|], animateCfg as [c|]; cbn;
    repeat (match goal with
            | |- context [isNull ?v] => destruct (isNull v)
            | |- context [Animate.switchedOn ?a] => destruct (Animate.switchedOn a)
            end; cbn);
    by repeat constructor.
Qed.

Lemma syncLeaf_no_animation env this n t state index :
  Animate.switchedOn (Element.animateOption env) = false →
  Forall (fun ef => View.isAnimation ef = false)
    (Element.effects (Element.syncLeaf env this (Scene.Leaf n) t state None index)).
Proof.
  intros Hoff. unfold Element.syncLeaf. rewrite Hoff.
  destruct (negb (String.eqb state "")), t as [t|]; cbn;
    repeat (match goal with
            | |- context [isNull ?v] => destruct (isNull v)
            end; cbn);
    by repeat constructor.
Qed.

Lemma syncLeaf_no_lookup env this n t animateCfg index :
  Forall (fun ef => View.isLookup ef = false)
    (Element.effects (Element.syncLeaf env this (Scene.Leaf n) t "" animateCfg index)).
Proof.
  unfold Element.syncLeaf.
  destruct t as [t|], animateCfg as [c|]; cbn;
    repeat (match goal with
            | |- context [Animate.switchedOn ?a] => destruct (Animate.switchedOn a)
            end; cbn);
    by repeat constructor.
Qed.

Lemma filter_none {A} (f : A → bool) (l : list A) :
  Forall (fun a => f a = false) l → List.filter f l = [].
Proof.
  induction 1 as [|a rest Ha _ IH]; [done|]. cbn. by rewrite Ha.
Qed.

Lemma stateChanges_none (l : list Element.Effect) :
  Forall (fun ef => View.isNotification ef = false) l → Spec.stateChanges l = [].
Proof.
  induction 1 as [|ef rest Hef _ IH]; [done|].
  unfold Spec.stateChanges in *. cbn [omap list_omap]. rewrite IH.
  by destruct ef.
Qed.

Lemma lookupKeys_none (l : list Element.Effect) :
  Forall (fun ef => View.isLookup ef = false) l → Spec.lookupKeys l = [].
Proof.
  induction 1 as [|ef rest Hef _ IH]; [done|].
  unfold Spec.lookupKeys in *. cbn [omap list_omap]. rewrite IH.
  by destruct ef.
Qed.

(** ** setState: what it keeps *)

(** X1. [setState] never touches the model, the datum, the visibility
    flag or the labels, and of the shape tree it changes nothing but
    attributes of leaves: structure, identities, names, visibility and tags
    of every node stay, however the call ends. *)
Theorem setState_keeps_data_and_structure
    (env : Element.Env) (stateName : string) (stateStatus : bool) (e : Element.Element) :
  let e' := Element.final (Element.setState env stateName stateStatus e) in
  Element.getModel e' = Element.getModel e
  ∧ Element.getData e' = Element.getData e
  ∧ Element.visible e' = Element.visible e
  ∧ Element.labelShape e' = Element.labelShape e
  ∧ View.skeleton <$> Element.shape e' = View.skeleton <$> Element.shape e.
Proof.
  intros e'. subst e'.
  pose proof (setState_step env (fun _ => True) stateName stateStatus e) as H.
  cbn zeta in H.
  destruct (xorb _ _).
  - destruct H as ((Hv & Hm & Hd & _ & Hl) & K & _).
    + done.
    + intros. by apply Forall_true.
    + by repeat split.
  - rewrite H; [by repeat split|done|]. intros. by apply Forall_true.
Qed.

(** ** setState: paint order *)

Lemma isChild_elem_of (id : nat) (l : list nat) :
  Scene.isChild id l = true ↔ id ∈ l.
Proof.
  unfold Scene.isChild. rewrite existsb_exists. split.
  - intros (c & Hin & ->%Nat.eqb_eq). by apply list_elem_of_In.
  - intros Hin. exists id. split; [by apply list_elem_of_In|apply Nat.eqb_refl].
Qed.

Lemma removeChild_perm (id : nat) (l : list nat) :
  id ∈ l → id :: Scene.removeChild id l ≡ₚ l.
Proof.
  induction l as [|c rest IH]; [by intros ?%elem_of_nil|].
  cbn [Scene.removeChild]. destruct (Nat.eqb_spec c id) as [->|Hne]; [done|].
  intros [?|Hin]%elem_of_cons; [congruence|].
  rewrite Permutation_swap. by rewrite IH.
Qed.

Lemma removeChild_others (id : nat) (l : list nat) :
  filter (fun c => c ≠ id) (Scene.removeChild id l) = filter (fun c => c ≠ id) l.
Proof.
  induction l as [|c rest IH]; [done|].
  cbn [Scene.removeChild]. destruct (Nat.eqb_spec c id) as [->|Hne].
  - by rewrite filter_cons_False by (intros H; by apply H).
  - by rewrite !filter_cons_True, IH.
Qed.

Lemma toFront_spec (id : nat) (l : list nat) :
  id ∈ l →
  Scene.toFront id l ≡ₚ l
  ∧ filter (fun c => c ≠ id) (Scene.toFront id l) = filter (fun c => c ≠ id) l
  ∧ last (Scene.toFront id l) = Some id.
Proof.
  intros Hin. unfold Scene.toFront. rewrite (proj2 (isChild_elem_of id l) Hin).
  split; [|split].
  - rewrite <- (removeChild_perm id l Hin) at 2. symmetry. apply Permutation_cons_append.
  - rewrite filter_app, removeChild_others.
    rewrite filter_cons_False by (intros H; by apply H). by rewrite app_nil_r.
  - apply last_snoc.
Qed.

Lemma toBack_spec (id : nat) (l : list nat) :
  id ∈ l →
  Scene.toBack id l ≡ₚ l
  ∧ filter (fun c => c ≠ id) (Scene.toBack id l) = filter (fun c => c ≠ id) l
  ∧ head (Scene.toBack id l) = Some id.
Proof.
  intros Hin. unfold Scene.toBack. rewrite (proj2 (isChild_elem_of id l) Hin).
  split; [|split].
  - by apply removeChild_perm.
  - rewrite filter_cons_False by (intros H; by apply H). apply removeChild_others.
  - done.
Qed.

(** X2. A call of [setState] that changes the membership leaves the
    container with the same children, the other children in the same
    relative order; enabling active or selected puts the element's shape
    last in the paint order, disabling either puts it first, and any other
    state name leaves the order as it is. This holds whether or not the
    restyling that follows throws. *)
Theorem setState_paint_order
    (env : Element.Env) (stateName : string) (stateStatus : bool)
    (e : Element.Element) (s : Scene.Shape) :
  Element.shape e = Some s →
  Scene.nid (Scene.node s) ∈ Element.container e →
  Element.hasState stateName e = negb stateStatus →
  let id := Scene.nid (Scene.node s) in
  let c' := Element.container (Element.final (Element.setState env stateName stateStatus e)) in
  c' ≡ₚ Element.container e
  ∧ filter (fun c => c ≠ id) c' = filter (fun c => c ≠ id) (Element.container e)
  ∧ (if Element.raises stateName
     then if stateStatus then last c' = Some id else head c' = Some id
     else c' = Element.container e).
Proof.
  intros Hs Hin Hh id c'. subst c'.
  pose proof (setState_step env (fun _ => True) stateName stateStatus e) as H.
  cbn zeta in H. rewrite Hh, Hs in H.
  replace (xorb (negb stateStatus) stateStatus) with true in H by (by destruct stateStatus).
  destruct H as (_ & _ & -> & _); [done|intros; by apply Forall_true|].
  destruct (Element.raises stateName); [|done].
  destruct stateStatus.
  - by apply toFront_spec.
  - by apply toBack_spec.
Qed.

Lemma setState_paint_order_witness :
  let c' := Element.container
              (Element.final (Element.setState Sample.still "active" false Sample.bothOn)) in
  Element.hasState "active" Sample.bothOn = true
  ∧ Element.container Sample.bothOn = [1; 2; 3]
  ∧ c' ≡ₚ [1; 2; 3]
  ∧ head c' = Some 3.
Proof.
  intros c'. split; [reflexivity|].
  assert (Hc : Element.container Sample.bothOn = [1; 2; 3]) by (vm_compute; reflexivity).
  split; [exact Hc|].
  destruct (Element.shape Sample.bothOn) as [s|] eqn:Hs; [|vm_compute in Hs; discriminate].
  assert (Hid : Scene.nid (Scene.node s) = 3).
  { vm_compute in Hs. injection Hs as <-. reflexivity. }
  destruct (setState_paint_order Sample.still "active" false Sample.bothOn s Hs)
    as (Hp & _ & Hh).
  - rewrite Hid, Hc. set_solver.
  - reflexivity.
  - rewrite Hc in Hp. rewrite Hid in Hh. split; [exact Hp|exact Hh].
Defined.

(** ** setState: notification and scratch shape *)

(** Disabling a state that is set, when the call returns. *)
Lemma setState_disable_notifies
    (env : Element.Env) (stateName : string) (e e1 : Element.Element) :
  Element.hasState stateName e = true →
  Element.setState env stateName false e = Element.Return e1 →
  List.filter View.isNotification (Element.trace e1)
  = List.filter View.isNotification (Element.trace e)
    ++ [Element.Emit "statechange" stateName false;
        Element.PropagationDelegate "statechange" stateName false].
Proof.
  intros Hhas Hret.
  pose proof (setState_step env (fun ef => View.isNotification ef = false)
                stateName false e) as H.
  cbn zeta in H. rewrite Hhas, Hret in H. cbn in H.
  destruct H as (_ & _ & _ & (e2 & (a & Ha & HPa) & Ht) & _);
    [done|intros; apply syncLeaf_no_notification|].
  by rewrite Ht, Ha, !List.filter_app, (filter_none _ a HPa), app_nil_r.
Qed.

(** X3. [setState] raises the statechange notification on the container
    and propagates it exactly once, in that order, when it changes the
    membership and returns; a redundant call and a call that throws notify
    nothing. *)
Theorem setState_notifies_once
    (env : Element.Env) (stateName : string) (stateStatus : bool) (e : Element.Element) :
  let o := Element.setState env stateName stateStatus e in
  List.filter View.isNotification (Element.trace (Element.final o))
  = List.filter View.isNotification (Element.trace e)
    ++ (if Element.returned o && xorb (Element.hasState stateName e) stateStatus
        then [Element.Emit "statechange" stateName stateStatus;
              Element.PropagationDelegate "statechange" stateName stateStatus]
        else []).
Proof.
  intros o. subst o.
  pose proof (setState_step env (fun ef => View.isNotification ef = false)
                stateName stateStatus e) as H.
  cbn zeta in H. destruct (xorb _ _).
  - destruct H as (_ & _ & _ & H); [done|intros; apply syncLeaf_no_notification|].
    destruct (Element.returned _); cbn [andb].
    + destruct H as [(e2 & (a & Ha & HPa) & Ht) _].
      rewrite Ht, Ha, !List.filter_app, (filter_none _ a HPa), app_nil_r. done.
    + destruct H as (a & Ha & HPa).
      by rewrite Ha, List.filter_app, (filter_none _ a HPa).
  - rewrite H; [|done|intros; apply syncLeaf_no_notification].
    cbn. by rewrite app_nil_r.
Qed.



(** ** update *)

Section UpdateFrames.
Import Element View.

Variable env : Env.

(** What [update] does to an element that owns a shape, however it ends. *)
Lemma update_step (P : Effect → Prop) (m : Model.ShapeInfo) e s :
  shape e = Some s →
  (∀ off st m', P (DrawShape off st m')) →
  (∀ this n t index,
     Forall P (effects (syncLeaf env this (Scene.Leaf n) t ""
                          (getAnimateCfg env "update") index))) →
  let o := update env m e in
  (visible (final o) = visible e ∧ labelShape (final o) = labelShape e
   ∧ states (final o) = states e ∧ container (final o) = container e)
  ∧ (model (final o) = Some m ∧ data (final o) = Model.data m
     ∧ shapeType (final o) = getShapeType m)
  ∧ skeleton <$> shape (final o) = Some (skeleton (setShapeInfo m s))
  ∧ addedCalls P e (final o)
  ∧ (returned o = true → scratch (final o) = scratch e ++ [nextId e])
  ∧ (returned o = true → is_Some (drawShapeOf env (getShapeType m) (Some m))).
Proof.
  intros Hs Hdraw Hleaf o. subst o. unfold update. rewrite Hs.
  set (ea := setShape (Some (setShapeInfo m s))
               (setModel (Some m) (Model.data m) (getShapeType m) e)).
  assert (Hea : (visible ea = visible e ∧ labelShape ea = labelShape e
                 ∧ states ea = states e ∧ container ea = container e)
                ∧ (model ea = Some m ∧ data ea = Model.data m
                   ∧ shapeType ea = getShapeType m)
                ∧ shape ea = Some (setShapeInfo m s) ∧ trace ea = trace e
                ∧ scratch ea = scratch e ∧ nextId ea = nextId e)
    by (subst ea; by repeat split).
  destruct Hea as ((Va & La & Sta & Ca) & (Ma & Daa & Tya) & Sa & Ta & Sca & Na).
  destruct (getOffscreenGroup_step ea) as (D0 & S0 & St0 & C0 & T0 & Sc0 & N0 & _).
  set (e0 := getOffscreenGroup ea) in *.
  destruct D0 as (V0 & M0 & Da0 & Ty0 & L0).
  pose proof (drawOn_step env true (shapeType e0) (Some m) e0) as H1.
  destruct (drawOn env true (shapeType e0) (Some m) e0) as [newShape e1].
  cbn [fst snd] in H1. destruct H1 as (D1 & S1 & St1 & T1 & H1 & B1).
  destruct (H1 eq_refl) as [C1 Sc1]. clear H1.
  destruct D1 as (V1 & M1 & Da1 & Ty1 & L1).
  destruct newShape as [ns|]; cbn [final returned].
  - set (r := syncShapeStyle env e1 (setShapeInfo m s) _ "" _ 0).
    assert (Hr : Forall P (effects r)) by (by apply syncShapeStyle_effects).
    assert (Hk : skeleton (source r) = skeleton (setShapeInfo m s))
      by apply syncShapeStyle_skeleton.
    assert (Hfin : ∀ o', final o' = emitAll (effects r) (setShape (Some (source r)) e1) →
      (visible (final o') = visible e ∧ labelShape (final o') = labelShape e
       ∧ states (final o') = states e ∧ container (final o') = container e)
      ∧ (model (final o') = Some m ∧ data (final o') = Model.data m
         ∧ shapeType (final o') = getShapeType m)
      ∧ skeleton <$> shape (final o') = Some (skeleton (setShapeInfo m s))
      ∧ addedCalls P e (final o')
      ∧ scratch (final o') = scratch e ++ [nextId e]).
    { intros o' ->. cbn.
      split; [repeat split; congruence|]. split; [repeat split; congruence|].
      split; [by rewrite Hk|]. split.
      - exists ([DrawShape true (shapeType e0) (Some m)] ++ effects r).
        cbn. rewrite T1, T0, Ta. rewrite <- app_assoc. split; [done|].
        constructor; [apply Hdraw|exact Hr].
      - destruct Sc1 as [Sc1 _]. unfold scratch in *. cbn.
        rewrite Sc1, Sc0, N0, Sca, Na. done. }
    destruct (completed r).
    + destruct (Hfin (Return (emitAll (effects r) (setShape (Some (source r)) e1))) eq_refl)
        as (A & B & C & D & E).
      split; [exact A|]. split; [exact B|]. split; [exact C|]. split; [exact D|].
      split; [intros _; exact E|]. intros _. rewrite <- Tya, <- Ty0. apply B1. by eexists.
    + destruct (Hfin (TypeError (emitAll (effects r) (setShape (Some (source r)) e1)))
                  eq_refl) as (A & B & C & D & E).
      split; [exact A|]. split; [exact B|]. split; [exact C|]. split; [exact D|].
      split; discriminate.
  - split; [repeat split; congruence|]. split; [repeat split; congruence|].
    split; [by rewrite S1, S0, Sa|]. split; [|split; discriminate].
    exists [DrawShape true (shapeType e0) (Some m)]. rewrite T1, T0, Ta.
    split; [done|]. by repeat constructor.
Qed.

End UpdateFrames.

(** X5. [update] keeps the active states, the visibility flag, the labels
    and the paint order, and it never looks up a state style: the styles of
    the states that are active are not applied again by an update. *)
Theorem update_keeps_states_without_lookup
    (env : Element.Env) (m : Model.ShapeInfo) (e : Element.Element) :
  let e' := Element.final (Element.update env m e) in
  Element.getStates e' = Element.getStates e
  ∧ Spec.lookupKeys (Element.trace e') = Spec.lookupKeys (Element.trace e)
  ∧ Element.visible e' = Element.visible e
  ∧ Element.labelShape e' = Element.labelShape e
  ∧ Element.container e' = Element.container e.
Proof.
  intros e'. subst e'. destruct (Element.shape e) as [s|] eqn:Hs.
  - destruct (update_step env (fun ef => View.isLookup ef = false) m e s Hs)
      as ((V & L & St & C) & _ & _ & (a & Ha & HPa) & _).
    + done.
    + intros. apply syncLeaf_no_lookup.
    + rewrite Ha. unfold Spec.lookupKeys at 1. rewrite omap_app.
      fold (Spec.lookupKeys (Element.trace e)) (Spec.lookupKeys a).
      rewrite (lookupKeys_none a HPa), app_nil_r. done.
  - by rewrite (update_without_shape env m e Hs).
Qed.

Lemma skeleton_tags (Q : Scene.Node → Prop) (s : Scene.Shape) :
  (∀ n, Q (Scene.setAttrs ∅ n) ↔ Q n) →
  Forall Q (View.nodes (View.skeleton s)) ↔ Forall Q (View.nodes s).
Proof.
  intros HQ. induction s as [n|n children IH] using Shape_tree_ind.
  - cbn. rewrite !Forall_singleton. apply HQ.
  - cbn [View.skeleton View.nodes]. rewrite !Forall_cons.
    assert (Hc : Forall Q (flat_map View.nodes (map View.skeleton children))
                 ↔ Forall Q (flat_map View.nodes children)).
    { induction IH as [|c rest Hc _ IHrest]; [done|].
      cbn [map flat_map]. rewrite !Forall_app. by rewrite Hc, IHrest. }
    by rewrite Hc.
Qed.

Lemma setShapeInfo_nodes (m : Model.ShapeInfo) (s : Scene.Shape) :
  Forall (fun n => Scene.origin n = Some m ∧ Scene.element n = true)
    (View.nodes (Element.setShapeInfo m s)).
Proof.
  induction s as [n|n children IH] using Shape_tree_ind.
  - by repeat constructor.
  - cbn [Element.setShapeInfo View.nodes]. constructor; [done|].
    induction IH as [|c rest Hc _ IHrest]; [constructor|].
    cbn [map flat_map]. by apply Forall_app.
Qed.

(** X6. After [update] on an element that owns a shape, however the call
    ends, the element stores the new model and datum, and every node of the
    live tree carries the new model as origin and the element as its
    back-reference. *)
Theorem update_reannotates
    (env : Element.Env) (m : Model.ShapeInfo) (e : Element.Element) (s : Scene.Shape) :
  Element.shape e = Some s →
  let e' := Element.final (Element.update env m e) in
  Element.getModel e' = Some m
  ∧ Element.getData e' = Model.data m
  ∧ match Element.shape e' with
    | Some s' =>
        Forall (fun n => Scene.origin n = Some m ∧ Scene.element n = true) (View.nodes s')
    | None => False
    end.
Proof.
  intros Hs e'. subst e'.
  destruct (update_step env (fun _ => True) m e s Hs) as (_ & (M & D & _) & K & _).
  - done.
  - intros. by apply Forall_true.
  - split; [exact M|]. split; [exact D|].
    destruct (Element.shape (Element.final (Element.update env m e))) as [s'|];
      [|done]. cbn in K. injection K as K.
    apply (skeleton_tags _ s'); [done|]. rewrite K.
    apply skeleton_tags; [done|]. apply setShapeInfo_nodes.
Qed.

Lemma update_reannotates_witness :
  is_Some (Element.shape Sample.drawn)
  ∧ Element.getModel
      (Element.final (Element.update Sample.still Sample.plainPoint Sample.drawn))
    = Some Sample.plainPoint.
Proof.
  destruct (Element.shape Sample.drawn) as [s|] eqn:Hs; [|vm_compute in Hs; discriminate].
  split; [by eexists|].
  by destruct (update_reannotates Sample.still Sample.plainPoint Sample.drawn s Hs) as [H _].
Defined.

(** X7. [update] does not dispose of the scratch shape it has the factory
    build: when it returns, that shape is one more child, the last, of the
    off-screen group. *)
Theorem update_leaves_scratch
    (env : Element.Env) (m : Model.ShapeInfo) (e : Element.Element) (s : Scene.Shape) :
  Element.shape e = Some s →
  Element.returned (Element.update env m e) = true →
  View.scratch (Element.final (Element.update env m e))
  = View.scratch e ++ [Element.nextId e].
Proof.
  intros Hs Hret.
  destruct (update_step env (fun _ => True) m e s Hs) as (_ & _ & _ & _ & H & _).
  - done.
  - intros. by apply Forall_true.
  - by apply H.
Qed.

Lemma update_leaves_scratch_witness :
  is_Some (Element.shape Sample.drawn)
  ∧ Element.returned (Element.update Sample.still Sample.plainPoint Sample.drawn) = true
  ∧ View.scratch (Element.final (Element.update Sample.still Sample.plainPoint Sample.drawn))
    = [4].
Proof.
  assert (H : Element.returned (Element.update Sample.still Sample.plainPoint Sample.drawn)
              = true) by (vm_compute; reflexivity).
  destruct (Element.shape Sample.drawn) as [s|] eqn:Hs; [|vm_compute in Hs; discriminate].
  split; [by eexists|]. split; [exact H|].
  rewrite (update_leaves_scratch Sample.still Sample.plainPoint Sample.drawn s Hs H).
  reflexivity.
Defined.

(** ** draw *)

(** [draw], step by step. *)
Lemma draw_step (env : Element.Env) (m : Model.ShapeInfo) (isUpdate : bool)
    (e : Element.Element) :
  let e' := Element.draw env m isUpdate e in
  let asked := Element.DrawShape false (Element.getShapeType m) (Some m) in
  (Element.model e' = Some m ∧ Element.data e' = Model.data m
   ∧ Element.shapeType e' = Element.getShapeType m)
  ∧ (Element.states e' = Element.states e ∧ Element.visible e' = Element.visible e
     ∧ Element.offscreenGroup e' = Element.offscreenGroup e)
  ∧ Element.labelShape e'
    = (if Element.visible e then Element.labelShape e
       else map Scene.hide <$> Element.labelShape e)
  ∧ match Element.drawShapeOf env (Element.getShapeType m) (Some m) with
    | None =>
        Element.shape e' = None
        ∧ Element.container e' = Element.container e
        ∧ Element.trace e' = Element.trace e ++ [asked]
    | Some built =>
        let s := View.adopted env m (Element.nextId e) built in
        Element.shape e' = Some (if Element.visible e then s else Scene.hide s)
        ∧ Element.container e' = Element.container e ++ [Element.nextId e]
        ∧ Element.trace e'
          = Element.trace e ++ asked ::
            match Element.getAnimateCfg env (if isUpdate then "enter" else "appear") with
            | Some cfg =>
                [Element.DoAnimate s cfg (Some <$> Scene.attrs (Scene.node s)) None]
            | None => []
            end
    end.
Proof.
  destruct e as [vis m0 d ty sh lb sts off c nx tr].
  unfold Element.draw, Element.drawShape, Element.drawOn, Element.animateToOwnAttrs,
    View.adopted.
  cbn. destruct (Element.drawShapeOf env (Element.getShapeType m) (Some m)) as [built|]; cbn.
  - destruct (Element.getAnimateCfg env (if isUpdate then "enter" else "appear")) as [cfg|];
      cbn; destruct vis, lb; cbn; rewrite <- ?app_assoc; by repeat split.
  - destruct vis, lb; cbn; by repeat split.
Qed.

(** X9. When the factory builds nothing for the model, [draw] leaves the
    element without shape and the container as it was, yet stores the
    model; an [update] after it returns the element unchanged, so the model
    of the update is not stored. *)
Theorem draw_nothing_then_update
    (env : Element.Env) (m m2 : Model.ShapeInfo) (isUpdate : bool) (e : Element.Element) :
  Element.drawShapeOf env (Element.getShapeType m) (Some m) = None →
  let e' := Element.draw env m isUpdate e in
  Element.shape e' = None
  ∧ Element.container e' = Element.container e
  ∧ Element.getModel e' = Some m
  ∧ Element.update env m2 e' = Element.Return e'.
Proof.
  intros Hnone e'. subst e'.
  destruct (draw_step env m isUpdate e) as ((M & _) & _ & _ & H). cbn zeta in H.
  rewrite Hnone in H. destruct H as (S & C & _).
  split; [exact S|]. split; [exact C|]. split; [exact M|].
  by apply update_without_shape.
Qed.

Lemma draw_nothing_then_update_witness :
  let env := Sample.env Sample.emptyFactory (Animate.AnimBool false) Sample.noDefaults in
  let e' := Element.draw env Sample.bluePoint false Sample.fresh in
  Element.drawShapeOf env (Element.getShapeType Sample.bluePoint) (Some Sample.bluePoint)
  = None
  ∧ Element.getModel e' = Some Sample.bluePoint
  ∧ Element.update env Sample.plainPoint e' = Element.Return e'.
Proof.
  intros env e'. split; [reflexivity|].
  destruct (draw_nothing_then_update env Sample.bluePoint Sample.plainPoint false
              Sample.fresh eq_refl) as (_ & _ & H1 & H2).
  split; [exact H1|exact H2].
Defined.




(** ** The animation switch *)

Section SwitchedOff.
Import Element View.

Variable env : Env.
Hypothesis switched_off : Animate.switchedOn (animateOption env) = false.

Lemma getAnimateCfg_switched_off (animateType : string) :
  getAnimateCfg env animateType = None.
Proof. unfold getAnimateCfg, Animate.resolve. by rewrite switched_off. Qed.

Lemma animations_added e e' :
  addedCalls quiet e e' → animations (trace e') = animations (trace e).
Proof.
  intros (a & -> & Ha). unfold animations.
  by rewrite List.filter_app, (filter_none _ a Ha), app_nil_r.
Qed.

Lemma setState_quiet stateName stateStatus e :
  addedCalls quiet e (final (setState env stateName stateStatus e)).
Proof.
  pose proof (setState_step env quiet stateName stateStatus e) as H. cbn zeta in H.
  destruct (xorb _ _).
  - destruct H as (_ & _ & _ & H); [done|intros; by apply syncLeaf_no_animation|].
    destruct (returned _); [|exact H].
    destruct H as [(e2 & (a & Ha & HPa) & Ht) _].
    exists (a ++ [Emit "statechange" stateName stateStatus;
                  PropagationDelegate "statechange" stateName stateStatus]).
    rewrite Ht, Ha, app_assoc. split; [done|].
    apply Forall_app. split; [exact HPa|by repeat constructor].
  - rewrite H; [apply addedCalls_refl|done|intros; by apply syncLeaf_no_animation].
Qed.

Lemma eachState_quiet remaining : ∀ i e,
  addedCalls quiet e (final (eachState env i remaining e)).
Proof.
  induction remaining as [|n IH]; intros i e; cbn [eachState]; [apply addedCalls_refl|].
  destruct (states e !! i) as [st|]; [|apply IH].
  pose proof (setState_quiet st false e) as H1.
  destruct (setState env st false e) as [e1|e1]; cbn [andThen final] in *; [|exact H1].
  eapply addedCalls_trans; [exact H1|apply IH].
Qed.

(** X8. With the animation switch off ([animateOption] false) no operation
    of the element calls the animation driver: [draw], [update],
    [setState], [clearStates] and [destroy] add neither a [doAnimate] nor a
    [stopAnimate] or [animate] call, however they end. *)
Theorem switched_off_never_animates
    (m : Model.ShapeInfo) (isUpdate : bool) (stateName : string) (stateStatus : bool)
    (e : Element) :
  animations (trace (draw env m isUpdate e)) = animations (trace e)
  ∧ animations (trace (final (update env m e))) = animations (trace e)
  ∧ animations (trace (final (setState env stateName stateStatus e)))
    = animations (trace e)
  ∧ animations (trace (final (clearStates env e))) = animations (trace e)
  ∧ animations (trace (destroy env e)) = animations (trace e).
Proof.
  split; [|split; [|split; [|split]]].
  - destruct (draw_step env m isUpdate e) as (_ & _ & _ & H). cbn zeta in H.
    rewrite getAnimateCfg_switched_off in H. unfold animations.
    destruct (drawShapeOf env (getShapeType m) (Some m)); destruct H as (_ & _ & ->);
      by rewrite List.filter_app, app_nil_r.
  - destruct (shape e) as [s|] eqn:Hs.
    + apply animations_added.
      destruct (update_step env quiet m e s Hs) as (_ & _ & _ & H & _); [done| |exact H].
      intros. rewrite getAnimateCfg_switched_off. by apply syncLeaf_no_animation.
    + by rewrite (update_without_shape env m e Hs).
  - apply animations_added, setState_quiet.
  - apply animations_added. unfold clearStates.
    pose proof (eachState_quiet (length (states e)) 0 e) as H.
    destruct (eachState env 0 (length (states e)) e) as [e1|e1]; exact H.
  - unfold destroy, animateToOwnAttrs. rewrite getAnimateCfg_switched_off.
    unfold animations. destruct (shape e); cbn; by rewrite List.filter_app, app_nil_r.
Qed.

End SwitchedOff.

Lemma switched_off_never_animates_witness :
  Animate.switchedOn (Element.animateOption Sample.still) = false
  ∧ View.animations
      (Element.trace (Element.final (Element.setState Sample.still "active" true Sample.drawn)))
    = [].
Proof.
  split; [reflexivity|].
  destruct (switched_off_never_animates Sample.still eq_refl Sample.bluePoint false
              "active" true Sample.drawn) as (_ & _ & H & _).
  rewrite H. reflexivity.
Defined.

(** ** The states as a duplicate-free list *)

Lemma indexOf_middle (stateName : string) (pre tl : list string) :
  stateName ∉ pre →
  Element.indexOf stateName (pre ++ stateName :: tl) = Some (length pre).
Proof.
  induction pre as [|s rest IH]; cbn [app Element.indexOf length].
  - by rewrite String.eqb_refl.
  - intros [Hne Hrest]%not_elem_of_cons.
    destruct (String.eqb_spec s stateName) as [->|_]; [done|]. by rewrite IH.
Qed.

Lemma indexOf_split (stateName : string) (l : list string) (i : nat) :
  Element.indexOf stateName l = Some i →
  ∃ pre tl, l = pre ++ stateName :: tl ∧ length pre = i ∧ stateName ∉ pre.
Proof.
  revert i. induction l as [|s rest IH]; intros i; cbn [Element.indexOf]; [done|].
  destruct (String.eqb_spec s stateName) as [->|Hne].
  - intros [= <-]. exists [], rest. split; [done|]. split; [done|apply not_elem_of_nil].
  - destruct (Element.indexOf stateName rest) as [j|]; [|done].
    intros [= <-]. destruct (IH j eq_refl) as (pre & tl & -> & <- & Hpre).
    exists (s :: pre), tl. split; [done|]. split; [done|].
    apply not_elem_of_cons. split; [congruence|done].
Qed.

(** X11. Enabling a state that is not set and then disabling it gives
    back the list of states as it was, whether or not the restyling in
    either call throws. *)
Theorem setState_enable_disable
    (env : Element.Env) (stateName : string) (e : Element.Element) :
  Element.hasState stateName e = false →
  let e1 := Element.final (Element.setState env stateName true e) in
  let e2 := Element.final (Element.setState env stateName false e1) in
  Element.getStates e1 = Element.getStates e ++ [stateName]
  ∧ Element.getStates e2 = Element.getStates e.
Proof.
  intros Hnot e1 e2. subst e1 e2. unfold Element.getStates.
  assert (Hout : stateName ∉ Element.states e)
    by (by apply indexOf_None, hasState_false).
  rewrite !setState_states, (hasState_false _ _ Hnot).
  split; [done|]. rewrite (indexOf_middle _ _ [] Hout).
  by rewrite delete_middle, app_nil_r.
Qed.

Lemma setState_enable_disable_witness :
  Element.hasState "inactive" Sample.bothOn = false
  ∧ Element.getStates
      (Element.final
         (Element.setState Sample.still "inactive" false
            (Element.final (Element.setState Sample.still "inactive" true Sample.bothOn))))
    = ["active"; "selected"].
Proof.
  split; [reflexivity|].
  destruct (setState_enable_disable Sample.still "inactive" Sample.bothOn eq_refl)
    as [_ H].
  rewrite H. reflexivity.
Defined.

(** X12. [setState] keeps the list of states free of duplicates, and on
    such a list it makes [hasState] answer the requested status: true after
    enabling, false after disabling, however the call ends. *)
Theorem setState_keeps_states_distinct
    (env : Element.Env) (stateName : string) (stateStatus : bool) (e : Element.Element) :
  NoDup (Element.states e) →
  let e' := Element.final (Element.setState env stateName stateStatus e) in
  NoDup (Element.states e') ∧ Element.hasState stateName e' = stateStatus.
Proof.
  intros Hnd e'. subst e'. unfold Element.hasState. rewrite setState_states.
  destruct (Element.indexOf stateName (Element.states e)) as [i|] eqn:Hi.
  - destruct (indexOf_split _ _ _ Hi) as (pre & tl & Hl & Hlen & Hpre).
    assert (Hin : stateName ∈ Element.states e) by (rewrite Hl; set_solver).
    destruct stateStatus.
    + split; [done|]. by apply bool_decide_eq_true.
    + rewrite Hl, <- Hlen, delete_middle. rewrite Hl in Hnd.
      apply NoDup_app in Hnd as (Hn1 & Hdisj & Hn2).
      apply NoDup_cons in Hn2 as [Hntl Hn2].
      split.
      * apply NoDup_app. split; [done|]. split; [|done].
        intros x Hx Hxtl. apply (Hdisj x Hx). by right.
      * apply bool_decide_eq_false. intros [?|?]%elem_of_app; done.
  - apply indexOf_None in Hi. destruct stateStatus.
    + split.
      * apply NoDup_app. split; [done|]. split; [|apply NoDup_singleton].
        intros x Hx ->%list_elem_of_singleton. done.
      * apply bool_decide_eq_true. set_solver.
    + split; [done|]. by apply bool_decide_eq_false.
Qed.

Lemma setState_keeps_states_distinct_witness :
  NoDup (Element.states Sample.bothOn)
  ∧ Element.hasState "active"
      (Element.final (Element.setState Sample.still "active" false Sample.bothOn))
    = false.
Proof.
  assert (Hn : NoDup (Element.states Sample.bothOn)).
  { apply NoDup_ListNoDup. vm_compute. repeat constructor; simpl; intuition discriminate. }
  split; [exact Hn|].
  by destruct (setState_keeps_states_distinct Sample.still "active" false Sample.bothOn Hn).
Defined.

(** ** clearStates on several states *)

Section ClearStates.
Import Element View.

Variable env : Env.

Lemma eachState_past_end (remaining : nat) : ∀ i e,
  length (states e) ≤ i → eachState env i remaining e = Return e.
Proof.
  induction remaining as [|n IH]; intros i e Hlen; cbn [eachState]; [done|].
  rewrite (proj2 (lookup_ge_None (states e) i)) by lia. apply IH. lia.
Qed.

(** The loop of [clearStates] at index [i], when the states are [pre]
    (the [i] states it has stepped over) followed by [rest]. *)
Lemma eachState_evens (remaining : nat) : ∀ i e pre rest e',
  states e = pre ++ rest →
  length pre = i →
  NoDup (pre ++ rest) →
  length rest ≤ remaining →
  eachState env i remaining e = Return e' →
  List.filter isNotification (trace e')
  = List.filter isNotification (trace e)
    ++ flat_map (fun s => [Emit "statechange" s false;
                           PropagationDelegate "statechange" s false]) (evens rest).
Proof.
  induction remaining as [|n IH]; intros i e pre rest e' Hst Hlen Hnd Hn.
  - destruct rest; [|cbn in Hn; lia]. cbn. intros [= <-]. by rewrite app_nil_r.
  - destruct rest as [|x tl].
    + rewrite eachState_past_end by (rewrite Hst, app_nil_r; lia).
      cbn. intros [= <-]. by rewrite app_nil_r.
    + cbn [eachState]. rewrite Hst, <- Hlen, list_lookup_middle by done.
      assert (Hx : x ∉ pre).
      { apply NoDup_app in Hnd as (_ & Hdisj & _). intros Hin.
        apply (Hdisj x Hin). by left. }
      pose proof (setState_states env x false e) as Hafter.
      rewrite Hst, (indexOf_middle x pre tl Hx), delete_middle in Hafter.
      assert (Hhas : hasState x e = true).
      { unfold hasState. apply bool_decide_eq_true. rewrite Hst. set_solver. }
      pose proof (setState_disable_notifies env x e) as Hnote.
      destruct (setState env x false e) as [e1|e1]; cbn [andThen final returned] in *;
        [|done].
      specialize (Hnote e1 Hhas eq_refl).
      assert (Hnd1 : NoDup (pre ++ tl)).
      { apply NoDup_app in Hnd as (Hn1 & Hdisj & Hn2).
        apply NoDup_cons in Hn2 as [_ Hn2]. apply NoDup_app. split; [done|].
        split; [|done]. intros y Hy Hytl. apply (Hdisj y Hy). by right. }
      destruct tl as [|y rest'].
      * rewrite eachState_past_end by (rewrite Hafter, app_nil_r; lia).
        intros [= <-]. rewrite Hnote. cbn. done.
      * intros Hrun.
        rewrite (IH (S (length pre)) e1 (pre ++ [y]) rest' e').
        -- rewrite Hnote. cbn. by rewrite <- app_assoc.
        -- by rewrite Hafter, <- app_assoc.
        -- rewrite length_app. cbn. lia.
        -- by rewrite <- app_assoc.
        -- cbn in Hn. lia.
        -- exact Hrun.
Qed.

End ClearStates.

(** X13. When [clearStates] returns on a duplicate-free list of states,
    the states are empty, and it has notified the disabling of the states
    at positions 0, 2, 4, ... of the activation order, in that order, and of
    no other: the loop reads position [i] of the list that each
    [setState] shortens. *)
Theorem clearStates_notifies_every_other
    (env : Element.Env) (e e' : Element.Element) :
  NoDup (Element.states e) →
  Element.clearStates env e = Element.Return e' →
  Element.getStates e' = []
  ∧ List.filter View.isNotification (Element.trace e')
    = List.filter View.isNotification (Element.trace e)
      ++ flat_map (fun s => [Element.Emit "statechange" s false;
                             Element.PropagationDelegate "statechange" s false])
           (View.evens (Element.states e)).
Proof.
  intros Hnd Hret. split; [by eapply clearStates_returns_empty|].
  unfold Element.clearStates in Hret.
  destruct (Element.eachState env 0 (length (Element.states e)) e) as [e1|e1] eqn:Hrun;
    cbn in Hret; [|done].
  injection Hret as <-. cbn.
  by apply (eachState_evens env (length (Element.states e)) 0 e [] (Element.states e) e1).
Qed.

Lemma clearStates_notifies_every_other_witness :
  NoDup (Element.states Sample.bothOn)
  ∧ Element.returned (Element.clearStates Sample.still Sample.bothOn) = true
  ∧ View.evens (Element.states Sample.bothOn) = ["active"]
  ∧ Element.getStates (Element.final (Element.clearStates Sample.still Sample.bothOn)) = [].
Proof.
  assert (Hn : NoDup (Element.states Sample.bothOn)).
  { apply NoDup_ListNoDup. vm_compute. repeat constructor; simpl; intuition discriminate. }
  split; [exact Hn|]. split; [vm_compute; reflexivity|]. split; [reflexivity|].
  destruct (Element.clearStates Sample.still Sample.bothOn) as [e'|e'] eqn:Hrun;
    [|vm_compute in Hrun; discriminate].
  by destruct (clearStates_notifies_every_other Sample.still Sample.bothOn e' Hn Hrun).
Defined.

(** ** A pass with an animation configuration *)

Section Animated.
Import Element Spec View.

Variable env : Env.
Variable this : Element.
Variable state : string.
Variable cfg : Obj.

Lemma syncLeaf_animated (n : Scene.Node) (t : option Scene.Shape) (index : nat) :
  let r := syncLeaf env this (Scene.Leaf n) t state (Some cfg) index in
  source r = Scene.Leaf n
  ∧ (completed r = true → animated (effects r) = [Scene.Leaf n]).
Proof.
  unfold syncLeaf. destruct t as [t|]; cbn; [|done].
  split; [done|]. intros _. by destruct (negb (String.eqb state "")).
Qed.

Lemma syncChildren_animated (index : nat) (children : list Scene.Shape) :
  Forall (fun c => ∀ t idx,
    completed (syncShapeStyle env this c t state (Some cfg) idx) = true →
    animated (effects (syncShapeStyle env this c t state (Some cfg) idx))
    = Scene.Leaf <$> leaves c) children →
  ∀ newChildren i,
    let r := syncChildren
               (fun c t j => syncShapeStyle env this c t state (Some cfg) (index + j))
               children newChildren i in
    childrenCompleted r = true →
    animated (childEffects r) = Scene.Leaf <$> flat_map leaves children.
Proof.
  induction 1 as [|c rest Hc _ IH]; intros newChildren i; [reflexivity|].
  cbn [syncChildren flat_map].
  destruct newChildren as [ncs|]; [|discriminate].
  destruct (completed (syncShapeStyle env this c (ncs !! i) state (Some cfg) (index + i)))
    eqn:Hdone; cbn [childrenCompleted childEffects]; [|discriminate].
  intros Hrest. unfold animated at 1. rewrite omap_app.
  fold (animated (effects (syncShapeStyle env this c (ncs !! i) state (Some cfg) (index + i)))).
  rewrite (Hc _ _ Hdone). unfold animated in IH. rewrite (IH _ _ Hrest).
  by rewrite fmap_app.
Qed.

Lemma syncShapeStyle_animated (sourceShape : Scene.Shape) :
  ∀ targetShape index,
    completed (syncShapeStyle env this sourceShape targetShape state (Some cfg) index) = true →
    animated (effects (syncShapeStyle env this sourceShape targetShape state (Some cfg) index))
    = Scene.Leaf <$> leaves sourceShape.
Proof.
  induction sourceShape as [n|n children IH] using Shape_tree_ind; intros t index.
  - cbn [syncShapeStyle leaves]. intros Hdone.
    by destruct (syncLeaf_animated n t index) as [_ ->].
  - cbn [syncShapeStyle leaves]. destruct t as [t|]; [|discriminate].
    cbn [completed effects]. apply syncChildren_animated, IH.
Qed.

Lemma syncShapeStyle_animated_source (sourceShape : Scene.Shape)
    (targetShape : option Scene.Shape) (index : nat) :
  source (syncShapeStyle env this sourceShape targetShape state (Some cfg) index)
  = sourceShape.
Proof.
  symmetry.
  apply (syncShapeStyle_sources env this state (Some cfg) (fun s s' => s = s')).
  - done.
  - intros n t i. by destruct (syncLeaf_animated n t i) as [-> _].
  - intros n children children' H. f_equal.
    induction H as [|c c' cs cs' -> _ ->]; done.
Qed.

End Animated.

(** X14. A reconciliation pass that is given an animation configuration
    changes nothing of the live tree itself, whether it completes or not;
    when it completes it has handed every leaf, once and in flattened
    order, to [doAnimate]. *)
Theorem syncShapeStyle_animates_every_leaf
    (env : Element.Env) (this : Element.Element) (state : string) (cfg : Obj)
    (sourceShape : Scene.Shape) (targetShape : option Scene.Shape) (index : nat) :
  let r := Element.syncShapeStyle env this sourceShape targetShape state (Some cfg) index in
  Element.source r = sourceShape
  ∧ (Element.completed r = true →
     View.animated (Element.effects r) = Scene.Leaf <$> Spec.leaves sourceShape).
Proof.
  intros r. split; [apply syncShapeStyle_animated_source|apply syncShapeStyle_animated].
Qed.

Lemma syncShapeStyle_animates_every_leaf_witness :
  let r := Element.syncShapeStyle Sample.still Sample.fresh Sample.threeInARow
             (Some Sample.threeInARow) "" (Some Sample.updateDefault) 0 in
  Element.completed r = true
  ∧ length (View.animated (Element.effects r)) = 3.
Proof.
  intros r.
  assert (H : Element.completed r = true) by (vm_compute; reflexivity).
  split; [exact H|].
  destruct (syncShapeStyle_animates_every_leaf Sample.still Sample.fresh ""
              Sample.updateDefault Sample.threeInARow (Some Sample.threeInARow) 0)
    as [_ Hall].
  fold r in Hall. rewrite (Hall H). reflexivity.
Defined.

(** ** Trees that do not match *)

Section Mismatch.
Import Element.

Lemma syncChildren_short
    (sync : Scene.Shape → option Scene.Shape → nat → SyncResult)
    (children : list Scene.Shape) :
  (∀ c i, completed (sync c None i) = false) →
  ∀ ncs i,
    children ≠ [] →
    length ncs < i + length children →
    childrenCompleted (syncChildren sync children (Some ncs) i) = false.
Proof.
  intros Hnone. induction children as [|c rest IH]; intros ncs i Hne Hlen; [done|].
  cbn [syncChildren].
  destruct (completed (sync c (ncs !! i) i)) eqn:Hdone; cbn; [|done].
  destruct (ncs !! i) as [t|] eqn:Hi; [|by rewrite Hnone in Hdone].
  apply lookup_lt_Some in Hi.
  destruct rest as [|c2 rest2]; [cbn in Hlen; lia|].
  destruct (target (sync c (Some t) i)); apply IH;
    rewrite ?length_insert; cbn in *; try done; lia.
Qed.

(** The group branch against a target with fewer children, or with none
    to read. *)
Lemma syncShapeStyle_short env this n children t state animateCfg index :
  children ≠ [] →
  length (default [] (Scene.getChildren t)) < length children →
  completed (syncShapeStyle env this (Scene.Group n children) (Some t)
               state animateCfg index) = false.
Proof.
  intros Hne Hlen. cbn [syncShapeStyle completed].
  destruct (Scene.getChildren t) as [ncs|].
  - apply syncChildren_short; [|done|cbn in *; lia].
    intros c i. apply syncShapeStyle_undefined_target.
  - by destruct children.
Qed.

End Mismatch.

(** X15. When the live shape is a group and the factory builds, for the
    new model, a leaf or a group with fewer children, [update] throws: the
    pass reads a child of the scratch tree that is not there. *)
Theorem update_fewer_children_throws
    (env : Element.Env) (m : Model.ShapeInfo) (e : Element.Element)
    (n : Scene.Node) (children : list Scene.Shape) (built : Scene.Shape) :
  Element.shape e = Some (Scene.Group n children) →
  Element.drawShapeOf env (Element.getShapeType m) (Some m) = Some built →
  length (default [] (Scene.getChildren built)) < length children →
  Element.returned (Element.update env m e) = false.
Proof.
  intros Hs Hbuilt Hlen.
  destruct e as [vis m0 d ty sh lb sts off c nx tr]. cbn in Hs. subst sh.
  assert (Hshort : ∀ this t,
            Scene.getChildren t = Scene.getChildren built →
            Element.completed
              (Element.syncShapeStyle env this
                 (Element.setShapeInfo m (Scene.Group n children)) (Some t) ""
                 (Element.getAnimateCfg env "update") 0) = false).
  { intros this t Ht. cbn [Element.setShapeInfo]. apply syncShapeStyle_short.
    - destruct children; [cbn in Hlen; lia|done].
    - by rewrite length_map, Ht. }
  unfold Element.update, Element.drawOn, Element.getOffscreenGroup.
  destruct off as [g|]; cbn -[Element.syncShapeStyle Element.setShapeInfo];
    rewrite Hbuilt; cbn -[Element.syncShapeStyle Element.setShapeInfo];
    rewrite Hshort; try done; by destruct built.
Qed.

Lemma update_fewer_children_throws_witness :
  let env := Sample.env (fun _ _ => Some (Sample.circle ∅)) (Animate.AnimBool false)
               Sample.noDefaults in
  let e := Element.setShape (Some Sample.threeInARow) Sample.fresh in
  Element.shape e = Some Sample.threeInARow
  ∧ Element.drawShapeOf env (Element.getShapeType Sample.bluePoint) (Some Sample.bluePoint)
    = Some (Sample.circle ∅)
  ∧ Element.returned (Element.update env Sample.bluePoint e) = false.
Proof.
  intros env e. split; [reflexivity|]. split; [reflexivity|].
  apply (update_fewer_children_throws env Sample.bluePoint e
           (Scene.mkNode 0 None ∅ true None false VUndef [])
           [Sample.circle ∅; Sample.circle ∅; Sample.circle ∅] (Sample.circle ∅));
    [reflexivity|reflexivity|cbn; lia].
Defined.

(** ** changeVisible, twice *)

Lemma setVisible_twice (a b : bool) (s : Scene.Shape) :
  Scene.withNode (Scene.setVisible a) (Scene.withNode (Scene.setVisible b) s)
  = Scene.withNode (Scene.setVisible a) s.
Proof. by destruct s. Qed.

Lemma setVisible_twice_map (a b : bool) (l : list Scene.Shape) :
  map (Scene.withNode (Scene.setVisible a)) (map (Scene.withNode (Scene.setVisible b)) l)
  = map (Scene.withNode (Scene.setVisible a)) l.
Proof. rewrite map_map. apply map_ext. intros s. apply setVisible_twice. Qed.

(** X16. Of two successive calls of [changeVisible] only the second
    counts: the element, its shape and its labels end as after the second
    call alone. *)
Theorem changeVisible_last_wins (v1 v2 : bool) (e : Element.Element) :
  Element.changeVisible v2 (Element.changeVisible v1 e) = Element.changeVisible v2 e.
Proof.
  destruct e as [vis m d ty sh lb sts off c nx tr].
  unfold Element.changeVisible, Element.superChangeVisible, Scene.show, Scene.hide.
  destruct v1, v2, sh as [s|], lb as [labels|]; cbn;
    rewrite ?setVisible_twice, ?setVisible_twice_map; reflexivity.
Qed.

(** ** getBBox: further bounds *)

Section BBoxMore.
Import Spec.
Local Open Scope Z_scope.

Variable env : Element.Env.




End BBoxMore.







(** * Further properties of getStyle *)

(** X20. With a truthy colour and a size name other than stroke and fill,
    [getStyle] writes the colour to stroke whenever [isStroke] holds and
    [style] has no truthy stroke, and to fill whenever [isFill] holds and
    [style] has no truthy fill; a stroke or fill of [defaultStyle] is then
    overridden. Otherwise the attribute is that of the merged styles. *)
Theorem getStyle_colour_over_default
    (cfg : Model.ShapeInfo) (isStroke isFill : bool) (sizeName : string) :
  truthy (Model.color cfg) = true →
  sizeName ≠ "stroke" →
  sizeName ≠ "fill" →
  let r := GetStyle.getStyle cfg isStroke isFill sizeName in
  r !! "stroke"
  = (if isStroke && negb (truthy (default VUndef (own (Model.style cfg) "stroke")))
     then Some (Model.color cfg)
     else Spec.userFirst (Model.style cfg) (Model.defaultStyle cfg) "stroke")
  ∧ r !! "fill"
    = (if isFill && negb (truthy (default VUndef (own (Model.style cfg) "fill")))
       then Some (Model.color cfg)
       else Spec.userFirst (Model.style cfg) (Model.defaultStyle cfg) "fill").
Proof.
  intros Hc Hs Hf r. subst r. rewrite !getStyle_lookup.
  unfold Spec.writesFill, Spec.writesStroke.
  rewrite !(get_single (Model.style cfg)) by reflexivity.
  rewrite Hc. cbn [andb].
  rewrite (proj2 (String.eqb_neq "stroke" sizeName)) by congruence.
  rewrite (proj2 (String.eqb_neq "fill" sizeName)) by congruence.
  rewrite !andb_false_r.
  change ("stroke" =? "fill")%string with false.
  change ("fill" =? "stroke")%string with false.
  change ("stroke" =? "stroke")%string with true.
  change ("fill" =? "fill")%string with true.
  rewrite ?andb_false_r, ?andb_true_r.
  unfold GetStyle.mergedStyle. by rewrite !spread_twice_lookup.
Qed.

Lemma getStyle_colour_over_default_witness :
  truthy (Model.color AreaSample.areaModel) = true
  ∧ own (Model.defaultStyle AreaSample.areaModel) "stroke" = Some (VStr "grey")
  ∧ GetStyle.getStyle AreaSample.areaModel true false "lineWidth" !! "stroke"
    = Some (VStr "red").
Proof.
  split; [reflexivity|]. split; [vm_compute; reflexivity|].
  destruct (getStyle_colour_over_default AreaSample.areaModel true false "lineWidth")
    as [H _]; [reflexivity|discriminate|discriminate|].
  rewrite H. vm_compute. reflexivity.
Defined.

(** X21. [getStyle] never drops an attribute: whatever [style] or
    [defaultStyle] has is present in the result (possibly overwritten by
    the shorthand); and with a falsy colour and a nil size the result is
    exactly [style] merged over [defaultStyle]. *)
Theorem getStyle_keeps_attributes
    (cfg : Model.ShapeInfo) (isStroke isFill : bool) (sizeName : string) :
  let r := GetStyle.getStyle cfg isStroke isFill sizeName in
  (∀ k, is_Some (GetStyle.mergedStyle cfg !! k) → is_Some (r !! k))
  ∧ (truthy (Model.color cfg) = false → isNil (Model.size cfg) = true →
     r = GetStyle.mergedStyle cfg).
Proof.
  intros r. subst r. split.
  - intros k Hk. rewrite getStyle_lookup.
    repeat (match goal with |- context [if ?b then _ else _] => destruct b end);
      try done; by eexists.
  - intros Hc Hs. unfold GetStyle.getStyle, GetStyle.applySize, GetStyle.applyColor.
    by rewrite Hc, Hs, andb_false_r.
Qed.

Lemma getStyle_keeps_attributes_witness :
  truthy (Model.color Sample.plainPoint) = false
  ∧ isNil (Model.size Sample.plainPoint) = true
  ∧ GetStyle.getStyle Sample.plainPoint true true "r" = GetStyle.mergedStyle Sample.plainPoint.
Proof.
  split; [reflexivity|]. split; [reflexivity|].
  destruct (getStyle_keeps_attributes Sample.plainPoint true true "r") as [_ H].
  by apply H.
Defined.

(** * Area paths *)

Section AreaFacts.
Import Area View.

Variable deps : Deps.
Variables isInCircle smooth : bool.
Variable constraint : option (list Position).

Lemma lineTo_None (subPath : list PathCommand) : lineTo subPath = None ↔ subPath = [].
Proof. destruct subPath as [|[|c args] rest]; cbn; split; congruence. Qed.

Lemma lineTo_Some (subPath joined : list PathCommand) :
  lineTo subPath = Some joined →
  ∃ c rest, subPath = c :: rest ∧ joined = (VStr "L" :: tail c) :: rest.
Proof.
  destruct subPath as [|[|c args] rest]; cbn; [done| |]; intros [= <-]; by eexists _, _.
Qed.

(** The sub-path of one line, in terms of the ring handed to the builder. *)
Lemma subPathOf_cases (pointsData : list Point) (index : nat) :
  subPathOf deps isInCircle smooth constraint pointsData index
  = if isInCircle && bool_decide (parsePoints deps pointsData = [])
    then None
    else if Nat.ltb 0 index
         then lineTo (build deps smooth constraint (ring deps isInCircle pointsData))
         else Some (build deps smooth constraint (ring deps isInCircle pointsData)).
Proof.
  unfold subPathOf, ring, build. destruct isInCircle; cbn [andb]; [|done].
  destruct (parsePoints deps pointsData) as [|p1 rest] eqn:Hp; cbn [head].
  - by rewrite bool_decide_eq_true_2.
  - by rewrite bool_decide_eq_false_2.
Qed.

End AreaFacts.

(** X22. [getPath] throws exactly when, in a circle, the registered shape
    parses the top or the bottom line to no points at all, or when the path
    builder returns an empty sub-path for the bottom line; an empty
    sub-path for the top line is tolerated. *)
Theorem getPath_throws_iff
    (deps : Area.Deps) (points : list (Area.Point * Area.Point))
    (isInCircle smooth : bool) (constraint : option (list Area.Position)) :
  let top := map snd points in
  let bottom := rev (map fst points) in
  Area.getPath deps points isInCircle smooth constraint = None
  ↔ (isInCircle = true
     ∧ (Area.parsePoints deps top = [] ∨ Area.parsePoints deps bottom = []))
    ∨ View.build deps smooth constraint (View.ring deps isInCircle bottom) = [].
Proof.
  intros top bottom. unfold Area.getPath. fold top bottom.
  rewrite !subPathOf_cases. cbn [Nat.ltb Nat.leb].
  destruct isInCircle; cbn [andb].
  - destruct (decide (Area.parsePoints deps top = [])) as [Ht|Ht].
    + rewrite bool_decide_eq_true_2 by done. split; [|done]. intros _. left. by split; [|left].
    + rewrite bool_decide_eq_false_2 by done.
      destruct (decide (Area.parsePoints deps bottom = [])) as [Hb|Hb].
      * rewrite bool_decide_eq_true_2 by done. split; [|done].
        intros _. left. by split; [|right].
      * rewrite bool_decide_eq_false_2 by done.
        destruct (Area.lineTo _) as [joined|] eqn:Hj.
        -- split; [done|]. intros [[_ [?|?]]|Hempty]; try done.
           apply lineTo_None in Hempty. congruence.
        -- split; [|done]. intros _. right. by apply lineTo_None.
  - destruct (Area.lineTo _) as [joined|] eqn:Hj.
    + split; [done|]. intros [[? _]|Hempty]; [done|].
      apply lineTo_None in Hempty. congruence.
    + split; [|done]. intros _. right. by apply lineTo_None.
Qed.

(** X23. A path that [getPath] returns is the top sub-path as the builder
    made it, then the bottom sub-path with the command name of its first
    command replaced by L and everything else of that command kept, then
    the closing command Z: it ends with Z and has one command more than the
    two sub-paths together. *)
Theorem getPath_joins_and_closes
    (deps : Area.Deps) (points : list (Area.Point * Area.Point))
    (isInCircle smooth : bool) (constraint : option (list Area.Position))
    (path : list Area.PathCommand) :
  Area.getPath deps points isInCircle smooth constraint = Some path →
  let top := View.build deps smooth constraint
               (View.ring deps isInCircle (map snd points)) in
  let bottom := View.build deps smooth constraint
                  (View.ring deps isInCircle (rev (map fst points))) in
  ∃ c rest,
    bottom = c :: rest
    ∧ path = top ++ [VStr "L" :: tail c] ++ rest ++ [[VStr "Z"]]
    ∧ last path = Some [VStr "Z"]
    ∧ length path = length top + length bottom + 1
    ∧ take (length top) path = top
    ∧ path !! length top = Some (VStr "L" :: tail c)
    ∧ drop (S (length top)) path = rest ++ [[VStr "Z"]].
Proof.
  intros Hpath top bottom. unfold Area.getPath in Hpath.
  rewrite !subPathOf_cases in Hpath. cbn [Nat.ltb Nat.leb] in Hpath.
  destruct (isInCircle && bool_decide _); [done|].
  destruct (isInCircle && bool_decide _); [done|].
  fold top bottom in Hpath.
  destruct (Area.lineTo bottom) as [joined|] eqn:Hj; [|done].
  injection Hpath as <-.
  apply lineTo_Some in Hj as (c & rest & Hb & ->). rewrite Hb.
  exists c, rest. split; [reflexivity|].
  split; [by rewrite <- app_assoc|].
  split; [apply last_snoc|].
  split; [rewrite !length_app; cbn; lia|].
  rewrite <- app_assoc, <- app_comm_cons.
  split; [by rewrite take_app_length|].
  split; [by rewrite list_lookup_middle|].
  change (top ++ (VStr "L" :: tail c) :: rest ++ [[VStr "Z"]])
    with (top ++ [VStr "L" :: tail c] ++ (rest ++ [[VStr "Z"]])).
  rewrite app_assoc, drop_app_length'; [done|]. rewrite length_app. cbn. lia.
Qed.

Lemma getPath_joins_and_closes_witness :
  Area.getPath AreaSample.deps AreaSample.band false false None
  = Some [[VStr "M"; VNum 0; VNum 5]; [VStr "L"; VNum 10; VNum 7];
          [VStr "L"; VNum 10; VNum 0]; [VStr "L"; VNum 0; VNum 0]; [VStr "Z"]]
  ∧ View.build AreaSample.deps false None
      (View.ring AreaSample.deps false (rev (map fst AreaSample.band)))
    = [[VStr "M"; VNum 10; VNum 0]; [VStr "L"; VNum 0; VNum 0]]
  ∧ [[VStr "M"; VNum 0; VNum 5]; [VStr "L"; VNum 10; VNum 7];
     [VStr "L"; VNum 10; VNum 0]; [VStr "L"; VNum 0; VNum 0]; [VStr "Z"]] !! 2
    = Some [VStr "L"; VNum 10; VNum 0].
Proof.
  assert (H : Area.getPath AreaSample.deps AreaSample.band false false None
              = Some [[VStr "M"; VNum 0; VNum 5]; [VStr "L"; VNum 10; VNum 7];
                      [VStr "L"; VNum 10; VNum 0]; [VStr "L"; VNum 0; VNum 0];
                      [VStr "Z"]]) by reflexivity.
  split; [exact H|]. split; [reflexivity|].
  destruct (getPath_joins_and_closes AreaSample.deps AreaSample.band false false None _ H)
    as (c & rest & Hb & _ & _ & _ & _ & Hat & _).
  injection Hb as <- <-. exact Hat.
Defined.

Lemma concatPaths_mapM (deps : Area.Deps)
    (isInCircle smooth : bool) (constraint : option (list Area.Position))
    (pathPoints : list (list (Area.Point * Area.Point))) :
  ∀ path,
    Area.concatPaths deps pathPoints isInCircle smooth constraint path
    = (fun paths => path ++ concat paths)
        <$> mapM (fun eachPoints =>
                    Area.getPath deps eachPoints isInCircle smooth constraint) pathPoints.
Proof.
  induction pathPoints as [|seg rest IH]; intros path; cbn.
  - by rewrite app_nil_r.
  - destruct (Area.getPath deps seg isInCircle smooth constraint) as [p|]; cbn; [|done].
    rewrite IH. destruct (mapM _ rest) as [ps|]; cbn; [|done]. by rewrite app_assoc.
Qed.

(** X24. [getShapeAttrs] throws exactly when [getPath] throws for one of
    the segments that [getPathPoints] returns; otherwise its path is the
    paths of the segments one after the other, in their order. *)
Theorem getShapeAttrs_path
    (deps : Area.Deps) (cfg : Area.AreaInfo) (isStroke smooth : bool)
    (constraint : option (list Area.Position)) :
  let segments := Area.getPathPoints deps (Area.points cfg) (Area.connectNulls cfg) in
  match mapM (fun eachPoints =>
                Area.getPath deps eachPoints (Area.isInCircle cfg) smooth constraint)
          segments with
  | Some paths =>
      Area.path <$> Area.getShapeAttrs deps cfg isStroke smooth constraint
      = Some (concat paths)
  | None => Area.getShapeAttrs deps cfg isStroke smooth constraint = None
  end.
Proof.
  intros segments. unfold Area.getShapeAttrs. fold segments.
  rewrite concatPaths_mapM. by destruct (mapM _ segments).
Qed.

(** X25. In the attributes [getShapeAttrs] returns, the colour shorthand
    reaches one side only: for a stroked area the fill is that of the
    merged styles, for a filled one the stroke is; every attribute other
    than path is as [getStyle] resolved it with lineWidth as size name, and
    a path given in the style is dropped in favour of the computed one. *)
Theorem getShapeAttrs_colour_side
    (deps : Area.Deps) (cfg : Area.AreaInfo) (isStroke smooth : bool)
    (constraint : option (list Area.Position)) (r : Area.ShapeAttrs) :
  Area.getShapeAttrs deps cfg isStroke smooth constraint = Some r →
  Area.attrs r !! "path" = None
  ∧ (∀ k, k ≠ "path" →
       Area.attrs r !! k
       = GetStyle.getStyle (Area.info cfg) isStroke (negb isStroke) "lineWidth" !! k)
  ∧ Area.attrs r !! (if isStroke then "fill" else "stroke")
    = Spec.userFirst (Model.style (Area.info cfg)) (Model.defaultStyle (Area.info cfg))
        (if isStroke then "fill" else "stroke").
Proof.
  unfold Area.getShapeAttrs.
  destruct (Area.concatPaths _ _ _ _ _ _) as [p|]; [|done]. intros [= <-]. cbn.
  split; [apply lookup_delete_eq|].
  split; [intros k Hk; by rewrite lookup_delete_ne|].
  rewrite lookup_delete_ne by (by destruct isStroke).
  rewrite getStyle_lookup. unfold Spec.writesFill, Spec.writesStroke.
  destruct isStroke; cbn [negb andb];
    rewrite ?andb_false_r; cbn [andb];
    unfold GetStyle.mergedStyle; by rewrite spread_twice_lookup.
Qed.

Lemma getShapeAttrs_colour_side_witness :
  match Area.getShapeAttrs AreaSample.deps AreaSample.area true false None with
  | Some r =>
      Area.attrs r !! "fill" = Some (VStr "green")
      ∧ Area.attrs r !! "stroke" = Some (VStr "red")
  | None => False
  end.
Proof.
  destruct (Area.getShapeAttrs AreaSample.deps AreaSample.area true false None) as [r|] eqn:Hr;
    [|vm_compute in Hr; discriminate].
  destruct (getShapeAttrs_colour_side AreaSample.deps AreaSample.area true false None r Hr)
    as (_ & Hk & Hfill).
  split.
  - rewrite Hfill. vm_compute. reflexivity.
  - rewrite Hk by discriminate. vm_compute. reflexivity.
Defined.
